(** * fedimg: the EC2 upload pipeline

    A shallow embedding of [fedimg/services/ec2.py] (class [EC2Service]) and
    of [fedimg/uploader.py] (function [upload]).

    Python [str] values are modelled as [string] (the sources are Python 2,
    a [str] is a sequence of 8-bit characters).  The object [self] is a
    record that is threaded through every method; the cloud provider, the
    shell and the message bus are an oracle ([Cloud]) that answers each call,
    and every call is appended to a trace together with the resource
    references the object holds at that moment. *)

From Stdlib Require Import String Ascii List Bool Arith Lia.
Import ListNotations.
Local Open Scope list_scope.
Local Open Scope string_scope.

(** ** Python string primitives *)

Module PyStr.

(** [c] is one of [0-9]: what [\d] matches on a Python 2 [str]. *)
Definition is_digit (c : ascii) : bool :=
  let n := nat_of_ascii c in ((48 <=? n) && (n <=? 57))%nat.

(** [\w] on a Python 2 [str]: [a-zA-Z0-9_]. *)
Definition is_word (c : ascii) : bool :=
  let n := nat_of_ascii c in
  (((48 <=? n) && (n <=? 57)) || ((65 <=? n) && (n <=? 90))
   || ((97 <=? n) && (n <=? 122)) || (n =? 95))%nat.

(** [\s] on a Python 2 [str]: space, \t, \n, \v, \f, \r. *)
Definition is_space (c : ascii) : bool :=
  let n := nat_of_ascii c in ((n =? 32) || ((9 <=? n) && (n <=? 13)))%nat.

(** [s[n:]] *)
Fixpoint drop (n : nat) (s : string) : string :=
  match n, s with
  | S k, String _ r => drop k r
  | _, _ => s
  end.

(** [needle in hay] *)
Fixpoint contains (needle hay : string) : bool :=
  prefix needle hay ||
  match hay with
  | EmptyString => false
  | String _ r => contains needle r
  end.

(** [s.split(sep)] for a one-character separator: the pieces between the
    separators, never an empty list. *)
Fixpoint split (sep : ascii) (s : string) : list string :=
  match s with
  | EmptyString => [EmptyString]
  | String c r =>
      if Ascii.eqb c sep then EmptyString :: split sep r
      else match split sep r with
           | p :: ps => String c p :: ps
           | [] => [String c EmptyString]
           end
  end.

(** [l[-1]] on a list of strings; Python raises on the empty list, and
    [split] never returns one. *)
Definition last_piece (l : list string) : string := last l EmptyString.

(** [s.replace(old, new)] for a non-empty [old]: the occurrences are found
    left to right and do not overlap.  [skip] counts the characters of an
    occurrence that is being skipped. *)
Fixpoint replace_from (old new : string) (skip : nat) (s : string) : string :=
  match s with
  | EmptyString => EmptyString
  | String c r =>
      match skip with
      | S k => replace_from old new k r
      | O => if prefix old s
             then new ++ replace_from old new (String.length old - 1) r
             else String c (replace_from old new 0 r)
      end
  end.

Definition replace (old new s : string) : string := replace_from old new 0 s.

(** [str(n)] for a natural number below 100 would do here; the general
    decimal printer is short enough. *)
Definition digit_char (d : nat) : ascii := ascii_of_nat (48 + d).

Fixpoint str_of_nat_fuel (fuel n : nat) (acc : string) : string :=
  match fuel with
  | O => acc
  | S f =>
      let acc' := String (digit_char (n mod 10)) acc in
      if (n <? 10)%nat then acc' else str_of_nat_fuel f (n / 10) acc'
  end.

Definition str_of_nat (n : nat) : string := str_of_nat_fuel (S n) n EmptyString.

(** [int(c)] for a one-digit string. *)
Definition int_of_digit (c : ascii) : nat := nat_of_ascii c - 48.

End PyStr.

(** ** The regular expressions of [ec2.py] *)

Module Re.
Import PyStr.

(** The first [n] characters of [s] when all of them match [\w]. *)
Fixpoint word_run (n : nat) (s : string) : option string :=
  match n with
  | O => Some EmptyString
  | S k =>
      match s with
      | String c r =>
          if is_word c
          then match word_run k r with
               | Some w => Some (String c w)
               | None => None
               end
          else None
      | EmptyString => None
      end
  end.

(** A match of [pre\w{n}] anchored at the head of [s]. *)
Definition match_here (pre : string) (n : nat) (s : string) : option string :=
  if prefix pre s
  then match word_run n (drop (String.length pre) s) with
       | Some w => Some (pre ++ w)
       | None => None
       end
  else None.

(** [re.search('\s(pre\w{n})', s)]: [None], or group 1 of the leftmost
    match. *)
Fixpoint search_token (pre : string) (n : nat) (s : string) : option string :=
  match s with
  | EmptyString => None
  | String c r =>
      if is_space c
      then match match_here pre n r with
           | Some t => Some t
           | None => search_token pre n r
           end
      else search_token pre n r
  end.

(** Does [s] start with a digit?  The lookahead [(?!\d)] is its negation. *)
Definition digit_ahead (s : string) : bool :=
  match s with
  | String c _ => is_digit c
  | EmptyString => false
  end.

(** [re.sub('\d(?!\d)', lambda x: str(int(x.group(0)) + 1), s)]: every
    digit that is not followed by a digit is replaced by its successor
    printed in decimal; [re.sub] replaces all the matches. *)
Fixpoint sub_digit (s : string) : string :=
  match s with
  | EmptyString => EmptyString
  | String c r =>
      if is_digit c && negb (digit_ahead r)
      then str_of_nat (int_of_digit c + 1) ++ sub_digit r
      else String c (sub_digit r)
  end.

End Re.

(** ** Provider entities, exceptions and the outside world *)

Record Volume := { vol_id : string }.

(** [snap_state] is [snapshot.extra['state']]. *)
Record Snapshot := { snap_id : string; snap_state : string }.

Record Image := { img_id : string }.

Record Zone := { zone_name : string }.

(** A libcloud driver object: [region_to_driver(region)(access_id, secret_key)]. *)
Record Driver := { drv_region : string; drv_access_id : string; drv_secret_key : string }.

(** One entry of the block device mapping handed to [ex_register_image]. *)
Record BlockDevice := {
  DeviceName : string;
  SnapshotId : string;
  VolumeSize : string;
  VolumeType : string;
  DeleteOnTermination : string
}.

(** The exceptions that reach the pipeline: [match.group] on [None],
    [[...][0]] on an empty list, and whatever the driver raises, with its
    [str(e)]. *)
Inductive Exc :=
| AttributeError
| IndexError
| ProviderError (msg : string).

(** The globals of [fedimg/__init__.py] that the pipeline reads. *)
Record Config := {
  AWS_ACCESS_ID : string;
  AWS_SECRET_KEY : string;
  AWS_REGIONS : string;
  AWS_VOL_SIZE : string;
  AWS_BUCKET_NAME : string
}.

(** Calls on a driver. *)
Inductive DriverCall :=
| ListAvailabilityZones
| ListVolumes
| CreateVolumeSnapshot (v : Volume) (name : string)
| ListSnapshots
| ModifySnapshotAttribute (s : Snapshot) (key value : string)
| DestroyVolume (v : Volume)
| RegisterImage (name description root_device_name : string)
                (block_device_mapping : list BlockDevice)
                (virtualization_type architecture : string)
| DeleteImage (i : Image)
| DestroyVolumeSnapshot (s : Snapshot).

(** Everything the pipeline does to the outside world. *)
Inductive Event :=
| OnDriver (d : Driver) (c : DriverCall)
| Shell (cmd : string)
| Message (topic url destination status : string) (extra : list (string * string)).

(** A trace entry: the event and the references [self] holds when it is
    issued. *)
Record Entry := {
  event : Event;
  held_volume : option Volume;
  held_snapshot : option Snapshot;
  held_image : option Image
}.

(** The answers of the provider and of the shell.  The first argument is the
    number of events issued so far, so that the same call can be answered
    differently each time it is polled. *)
Record Cloud := {
  ex_list_availability_zones : nat -> Exc + list Zone;
  run_system_command : nat -> string -> string * string;
  list_volumes : nat -> Exc + list Volume;
  create_volume_snapshot : nat -> Volume -> string -> Exc + Snapshot;
  list_snapshots : nat -> Exc + list Snapshot;
  ex_modify_snapshot_attribute : nat -> Snapshot -> Exc + unit;
  destroy_volume : nat -> Volume -> Exc + unit;
  ex_register_image : nat -> string -> Exc + Image;
  delete_image : nat -> Image -> Exc + unit;
  destroy_volume_snapshot : nat -> Snapshot -> Exc + unit
}.

(** The values the retried methods return: a [str] or a [bool]. *)
Inductive PyVal :=
| VStr (s : string)
| VBool (b : bool).

(** What the [retry] decorator of the [retrying] package does with an
    attempt: reject (and retry) on an exception, reject on a result.  The
    result filter is [fedimg.util.retry_if_result_false]; neither is part of
    the sources at hand, so both are parameters of the pipeline. *)
Record RetryPolicy := {
  retry_on_exception : Exc -> bool;
  retry_if_result_false : PyVal -> bool
}.

(** Python truth value of a result. *)
Definition falsy (v : PyVal) : bool :=
  match v with
  | VStr s => match s with EmptyString => true | _ => false end
  | VBool b => negb b
  end.

(** Modelled from the spec: the [retry] decorator and
    [fedimg.util.retry_if_result_false] are missing from the sources.  The
    pollers report "not yet" with a false result and are then retried after
    the fixed delay; an error of a polling loop is fatal to the job and
    propagates. *)
Definition spec_policy : RetryPolicy :=
  {| retry_on_exception := fun _ => false; retry_if_result_false := falsy |}.

(** ** The object [self] *)

Record EC2Service := {
  raw_url : string;
  virt_type : string;
  vol_type : string;
  cwd : string;
  volume : option Volume;
  image : option Image;
  snapshot : option Snapshot;
  region : string;
  file_name : string;
  build_name : string;
  image_desc : string;
  image_arch : string;
  destination : option string;
  driver : option Driver
}.

Definition with_volume (v : option Volume) (s : EC2Service) : EC2Service :=
  {| raw_url := raw_url s; virt_type := virt_type s; vol_type := vol_type s;
     cwd := cwd s; volume := v; image := image s; snapshot := snapshot s;
     region := region s; file_name := file_name s; build_name := build_name s;
     image_desc := image_desc s; image_arch := image_arch s;
     destination := destination s; driver := driver s |}.

Definition with_image (i : option Image) (s : EC2Service) : EC2Service :=
  {| raw_url := raw_url s; virt_type := virt_type s; vol_type := vol_type s;
     cwd := cwd s; volume := volume s; image := i; snapshot := snapshot s;
     region := region s; file_name := file_name s; build_name := build_name s;
     image_desc := image_desc s; image_arch := image_arch s;
     destination := destination s; driver := driver s |}.

Definition with_snapshot (x : option Snapshot) (s : EC2Service) : EC2Service :=
  {| raw_url := raw_url s; virt_type := virt_type s; vol_type := vol_type s;
     cwd := cwd s; volume := volume s; image := image s; snapshot := x;
     region := region s; file_name := file_name s; build_name := build_name s;
     image_desc := image_desc s; image_arch := image_arch s;
     destination := destination s; driver := driver s |}.

Definition with_destination (d : option string) (s : EC2Service) : EC2Service :=
  {| raw_url := raw_url s; virt_type := virt_type s; vol_type := vol_type s;
     cwd := cwd s; volume := volume s; image := image s; snapshot := snapshot s;
     region := region s; file_name := file_name s; build_name := build_name s;
     image_desc := image_desc s; image_arch := image_arch s;
     destination := d; driver := driver s |}.

Definition with_driver (d : option Driver) (s : EC2Service) : EC2Service :=
  {| raw_url := raw_url s; virt_type := virt_type s; vol_type := vol_type s;
     cwd := cwd s; volume := volume s; image := image s; snapshot := snapshot s;
     region := region s; file_name := file_name s; build_name := build_name s;
     image_desc := image_desc s; image_arch := image_arch s;
     destination := destination s; driver := d |}.

(** ** The monad of the methods: state, trace and exceptions *)

Record St := { self : EC2Service; trace : list Entry }.

Inductive Res (A : Type) :=
| Ok (a : A)
| Raise (e : Exc)
| OutOfFuel.
Arguments Ok {A} a.
Arguments Raise {A} e.
Arguments OutOfFuel {A}.

(** A method: it leaves a state behind also when it raises, as a Python
    method does. *)
Definition M (A : Type) : Type := St -> Res A * St.

Definition ret {A} (a : A) : M A := fun st => (Ok a, st).

Definition bind {A B} (m : M A) (k : A -> M B) : M B :=
  fun st =>
    match m st with
    | (Ok a, st') => k a st'
    | (Raise e, st') => (Raise e, st')
    | (OutOfFuel, st') => (OutOfFuel, st')
    end.

Definition raise {A} (e : Exc) : M A := fun st => (Raise e, st).

Definition get_self : M EC2Service := fun st => (Ok (self st), st).

Definition modify_self (f : EC2Service -> EC2Service) : M unit :=
  fun st => (Ok tt, {| self := f (self st); trace := trace st |}).

Definition entry_of (s : EC2Service) (e : Event) : Entry :=
  {| event := e; held_volume := volume s; held_snapshot := snapshot s;
     held_image := image s |}.

Definition log (e : Event) (st : St) : St :=
  {| self := self st; trace := (trace st ++ [entry_of (self st) e])%list |}.

Declare Scope py_scope.
Delimit Scope py_scope with py.
Notation "x <- m ;; k" := (bind m (fun x => k))
  (at level 61, m at next level, right associativity) : py_scope.
Notation "m ;;; k" := (bind m (fun _ => k))
  (at level 61, right associativity) : py_scope.
Local Open Scope py_scope.

(** [x[0]]: the head, or [IndexError]. *)
Definition first_item {A} (l : list A) : M A :=
  match l with
  | x :: _ => ret x
  | [] => raise IndexError
  end.

(** [x.attr] on a value that may be [None]. *)
Definition deref {A} (o : option A) : M A :=
  match o with
  | Some a => ret a
  | None => raise AttributeError
  end.

(** ** [EC2Service] *)

Section Pipeline.

(** The globals of the [fedimg] package. *)
Variable fedimg : Config.

(** [fedimg.util.get_file_arch]: not among the sources at hand. *)
Variable get_file_arch : string -> string.

(** The [retry] decorator's filters. *)
Variable policy : RetryPolicy.

(** The provider and the shell. *)
Variable cloud : Cloud.

(** [EC2Service.__init__] *)
Definition __init__ (raw_url cwd virt_type vol_type : string) : EC2Service :=
  let regions := PyStr.split "|" (AWS_REGIONS fedimg) in
  let file_name := PyStr.last_piece (PyStr.split "/" raw_url) in
  let build_name := PyStr.replace ".raw.xz" "" file_name in
  {| raw_url := raw_url; virt_type := virt_type; vol_type := vol_type;
     cwd := cwd; volume := None; image := None; snapshot := None;
     region := hd EmptyString regions;
     file_name := file_name; build_name := build_name;
     image_desc := "Created from build " ++ build_name;
     image_arch := get_file_arch file_name;
     destination := None; driver := None |}.

(** A call on a driver object: logged, then answered by the provider. *)
Definition on_driver {A} (d : Driver) (c : DriverCall)
           (answer : Cloud -> nat -> Exc + A) : M A :=
  fun st =>
    let st' := log (OnDriver d c) st in
    match answer cloud (List.length (trace st)) with
    | inl e => (Raise e, st')
    | inr a => (Ok a, st')
    end.

(** A call on [self.driver], an attribute that [upload] sets. *)
Definition on_self_driver {A} (c : DriverCall)
           (answer : Cloud -> nat -> Exc + A) : M A :=
  s <- get_self ;;
  d <- deref (driver s) ;;
  on_driver d c answer.

(** [fedimg.util.run_system_command(cmd)]: not among the sources at hand; it
    answers the pair [(out, err)] that the oracle gives for the command. *)
Definition system (cmd : string) : M (string * string) :=
  fun st =>
    (Ok (run_system_command cloud (List.length (trace st)) cmd), log (Shell cmd) st).

(** [fedimg.messenger.message(topic, url, destination, status, ...)] *)
Definition message (topic url dest status : string)
           (extra : list (string * string)) : M unit :=
  fun st => (Ok tt, log (Message topic url dest status extra) st).

(** The [retry] decorator: call the method until an attempt is accepted. *)
Fixpoint retry {A} (inj : A -> PyVal) (fuel : nat) (attempt : M A) : M A :=
  match fuel with
  | O => fun st => (OutOfFuel, st)
  | S f =>
      fun st =>
        match attempt st with
        | (Ok a, st') =>
            if retry_if_result_false policy (inj a)
            then retry inj f attempt st'
            else (Ok a, st')
        | (Raise e, st') =>
            if retry_on_exception policy e
            then retry inj f attempt st'
            else (Raise e, st')
        | (OutOfFuel, st') => (OutOfFuel, st')
        end
  end.

(** [_clean_up(self, driver, delete_images)] *)
Definition _clean_up (drv : Driver) (delete_images : bool) : M unit :=
  s <- get_self ;;
  (match delete_images, image s with
   | true, Some i => on_driver drv (DeleteImage i) (fun c n => delete_image c n i)
   | _, _ => ret tt
   end) ;;;
  s <- get_self ;;
  match snapshot s, image s with
  | Some sn, Some _ =>
      on_driver drv (DestroyVolumeSnapshot sn)
                (fun c n => destroy_volume_snapshot c n sn) ;;;
      modify_self (with_snapshot None)
  | _, _ => ret tt
  end.

(** [get_availability_zone] *)
Definition get_availability_zone : M Zone :=
  zs <- on_self_driver ListAvailabilityZones ex_list_availability_zones ;;
  first_item zs.

(** The command line of [import_image_volume]; the literal is continued
    over two source lines, and the indentation of the second one is part
    of it. *)
Definition import_command (location image_name image_format region bucket_name
                           availability_zone : string) : string :=
  "euca-import-volume " ++ location ++ "/" ++ image_name ++ " -f " ++ image_format
  ++ " --region " ++ "               " ++ region ++ " -b " ++ bucket_name
  ++ " -z " ++ availability_zone.

(** [import_image_volume] *)
Definition import_image_volume (image_name image_format region bucket_name
                                availability_zone : string) : M (string * string) :=
  s <- get_self ;;
  system (import_command (cwd s) image_name image_format region bucket_name
                         availability_zone).

(** [match_regex_pattern], at the one pattern it is called with,
    ['\s(import-vol-\w{8})']. *)
Definition match_regex_pattern (output : string) : string :=
  match Re.search_token "import-vol-" 8 output with
  | None => EmptyString
  | Some g => g
  end.

Definition describe_command (task_id region : string) : string :=
  "euca-describe-conversion-tasks " ++ task_id ++ " --region " ++ region.

(** What one call of [describe_conversion_tasks] makes of the output of
    the status query. *)
Definition conversion_status (out : string) : M string :=
  if PyStr.contains "completed" out
  then match Re.search_token "vol-" 17 out with
       | Some volume_id => ret volume_id
       | None => raise AttributeError
       end
  else ret EmptyString.

(** The body of [describe_conversion_tasks]: one attempt. *)
Definition describe_conversion_tasks_attempt (task_id region : string) : M string :=
  oe <- system (describe_command task_id region) ;;
  conversion_status (fst oe).

(** [describe_conversion_tasks], decorated with [retry]. *)
Definition describe_conversion_tasks (fuel : nat) (task_id region : string) : M string :=
  retry VStr fuel (describe_conversion_tasks_attempt task_id region).

(** The body of [_check_snapshot_exists]: one attempt. *)
Definition _check_snapshot_exists_attempt (snapshot_id : string) : M bool :=
  s <- get_self ;;
  sn <- deref (snapshot s) ;;
  if negb (String.eqb (snap_state sn) "completed")
  then
    l <- on_self_driver ListSnapshots list_snapshots ;;
    sn' <- first_item (filter (fun x => String.eqb (snap_id x) snapshot_id) l) ;;
    modify_self (with_snapshot (Some sn')) ;;;
    ret false
  else ret true.

Definition _check_snapshot_exists (fuel : nat) (snapshot_id : string) : M bool :=
  retry VBool fuel (_check_snapshot_exists_attempt snapshot_id).

(** The lookup of [create_snapshot]:
    [[v for v in self.driver.list_volumes() if v.id == volume_id][0]] *)
Definition find_volume (volume_id : string) (vols : list Volume) : M Volume :=
  first_item (filter (fun v => String.eqb (vol_id v) volume_id) vols).

(** [create_snapshot] *)
Definition create_snapshot (fuel : nat) (volume_id : string) : M bool :=
  s <- get_self ;;
  let SNAPSHOT_NAME := "fedimg-snap-" ++ build_name s in
  vols <- on_self_driver ListVolumes list_volumes ;;
  v <- find_volume volume_id vols ;;
  modify_self (with_volume (Some v)) ;;;
  sn <- on_self_driver (CreateVolumeSnapshot v SNAPSHOT_NAME)
                       (fun c n => create_volume_snapshot c n v SNAPSHOT_NAME) ;;
  modify_self (with_snapshot (Some sn)) ;;;
  _check_snapshot_exists fuel (snap_id sn).

(** [str(e)] *)
Definition str_of_exc (e : Exc) : string :=
  match e with
  | AttributeError => "AttributeError"
  | IndexError => "list index out of range"
  | ProviderError msg => msg
  end.

(** The loop of [register_image]; [cnt] is its counter. *)
Fixpoint register_image_loop (fuel cnt : nat) (image_name reg_root_device_name : string)
         (blk_device_mapping : list BlockDevice) : M unit :=
  match fuel with
  | O => fun st => (OutOfFuel, st)
  | S f =>
      let image_name := if (0 <? cnt)%nat then Re.sub_digit image_name else image_name in
      fun st =>
        let s := self st in
        match on_self_driver
                (RegisterImage image_name (image_desc s) reg_root_device_name
                               blk_device_mapping (virt_type s) (image_arch s))
                (fun c n => ex_register_image c n image_name) st with
        | (Ok i, st') => modify_self (with_image (Some i)) st'
        | (Raise e, st') =>
            if PyStr.contains "InvalidAMIName.Duplicate" (str_of_exc e)
            then register_image_loop f (cnt + 1) image_name reg_root_device_name
                                     blk_device_mapping st'
            else (Raise e, st')
        | (OutOfFuel, st') => (OutOfFuel, st')
        end
  end.

(** [register_image] *)
Definition register_image (fuel : nat) (image_name reg_root_device_name : string)
           (blk_device_mapping : list BlockDevice) : M unit :=
  register_image_loop fuel 0 image_name reg_root_device_name blk_device_mapping.

(** The image name and the root device name that [upload] registers with. *)
Definition image_name_and_root (s : EC2Service) (region : string) : string * string :=
  if String.eqb (virt_type s) "paravirtual"
  then (build_name s ++ "-" ++ region ++ "-PV-" ++ vol_type s ++ "-0", "/dev/sda")
  else (build_name s ++ "-" ++ region ++ "-HVM-" ++ vol_type s ++ "-0", "/dev/sda1").

(** [upload(self, compose_meta)].  [self.snapshot] and [self.volume] are read
    where the method hands them to the driver; both are set by then, since
    [create_snapshot] has returned. *)
Definition upload (fuel : nat) : M unit :=
  s <- get_self ;;
  let region := region s in
  let dest := "EC2 (" ++ region ++ ")" in
  modify_self (with_destination (Some dest)) ;;;
  message "image.upload" (raw_url s) dest "started" [] ;;;
  modify_self (with_driver
                 (Some {| drv_region := region;
                          drv_access_id := AWS_ACCESS_ID fedimg;
                          drv_secret_key := AWS_SECRET_KEY fedimg |})) ;;;
  let bucket_name := AWS_BUCKET_NAME fedimg ++ "-" ++ region in
  availability_zone <- get_availability_zone ;;
  oe <- import_image_volume (file_name s) "raw" region bucket_name
                            (zone_name availability_zone) ;;
  let task_id := match_regex_pattern (fst oe) in
  volume_id <- describe_conversion_tasks fuel task_id region ;;
  create_snapshot fuel volume_id ;;;
  s1 <- get_self ;;
  sn <- deref (snapshot s1) ;;
  on_self_driver (ModifySnapshotAttribute sn "CreateVolumePermission.Add.1.Group" "all")
                 (fun c n => ex_modify_snapshot_attribute c n sn) ;;;
  v <- deref (volume s1) ;;
  on_self_driver (DestroyVolume v) (fun c n => destroy_volume c n v) ;;;
  modify_self (with_volume None) ;;;
  let nr := image_name_and_root s region in
  s2 <- get_self ;;
  sn2 <- deref (snapshot s2) ;;
  let mapping := [{| DeviceName := snd nr; SnapshotId := snap_id sn2;
                     VolumeSize := AWS_VOL_SIZE fedimg; VolumeType := vol_type s;
                     DeleteOnTermination := "true" |}] in
  register_image fuel (fst nr) (snd nr) mapping ;;;
  s3 <- get_self ;;
  i <- deref (image s3) ;;
  message "image.create" (raw_url s) dest "created"
          [("id", img_id i); ("virt_type", virt_type s);
           ("vol_type", vol_type s); ("region", region)].

(** A run of [upload] on a freshly constructed object. *)
Definition run_upload (fuel : nat) (s : EC2Service) : Res unit * St :=
  upload fuel {| self := s; trace := [] |}.

End Pipeline.

(** ** [fedimg/uploader.py] *)

Section Uploader.

Variable fedimg : Config.
Variable get_file_arch : string -> string.
Variable policy : RetryPolicy.

(** [fedimg.util.virt_types_from_url]: not among the sources at hand. *)
Variable virt_types_from_url : string -> list string.

(** The directory that [tempfile.mkdtemp()] returns. *)
Variable tmpdir : string.

(** The command line of [download_image]. *)
Definition download_command (image_url location : string) : string :=
  "wget " ++ image_url ++ " -P " ++ location.

(** The objects that one iteration of the loop over [urls] appends to
    [services]. *)
Definition services_of_url (url : string) : list EC2Service :=
  flat_map (fun vt => [ __init__ fedimg get_file_arch url tmpdir vt "standard";
                        __init__ fedimg get_file_arch url tmpdir vt "gp2" ])
           (virt_types_from_url url).

(** [services] when the loop is over. *)
Definition services (urls : list string) : list EC2Service :=
  flat_map services_of_url urls.

(** [pool.map(lambda s: s.upload(compose_meta), services)]: one run of
    [upload] per object, each against the provider as that job sees it. *)
Definition pool_map (clouds : nat -> Cloud) (fuel : nat) (l : list EC2Service)
  : list (Res unit * St) :=
  map (fun ks => run_upload fedimg policy (clouds (fst ks)) fuel (snd ks))
      (combine (seq 0 (List.length l)) l).

(** What [upload(pool, urls, compose_meta)] does: the downloads, then the
    dispatched runs. *)
Record Batch := {
  downloads : list string;
  runs : list (Res unit * St)
}.

Definition uploader_upload (clouds : nat -> Cloud) (fuel : nat) (urls : list string) : Batch :=
  {| downloads := map (fun url => download_command url tmpdir) urls;
     runs := pool_map clouds fuel (services urls) |}.

End Uploader.

(** ** The registrar's rename, as the specification words it *)

Module NameSpec.
Import PyStr.

(** The digits at the head of [s], and what follows them. *)
Fixpoint span_digits (s : string) : string * string :=
  match s with
  | String c r =>
      if is_digit c
      then let p := span_digits r in (String c (fst p), snd p)
      else (EmptyString, s)
  | EmptyString => (EmptyString, EmptyString)
  end.

Fixpoint rev_string (s : string) : string :=
  match s with
  | EmptyString => EmptyString
  | String c r => rev_string r ++ String c EmptyString
  end.

(** [int(s)] for a run of digits. *)
Fixpoint int_of_digits (acc : nat) (s : string) : nat :=
  match s with
  | EmptyString => acc
  | String c r => int_of_digits (10 * acc + int_of_digit c) r
  end.

(** The name whose final digit run is that of [s] plus one, for a name that
    ends with its final digit run (as every name of the pipeline does). *)
Definition increment_final_run (s : string) : string :=
  let p := span_digits (rev_string s) in
  rev_string (snd p) ++ str_of_nat (int_of_digits 0 (rev_string (fst p)) + 1).

End NameSpec.


(** ** Tokens, as the specification words them *)

Module Token.

(** A token [pre] followed by [n] identifier characters occurs somewhere
    in [s], whatever precedes it. *)
Fixpoint occurs (pre : string) (n : nat) (s : string) : bool :=
  match Re.match_here pre n s with
  | Some _ => true
  | None =>
      match s with
      | EmptyString => false
      | String _ r => occurs pre n r
      end
  end.

End Token.

(** ** A provider to run the pipeline against *)

Module Demo.

Definition cfg : Config :=
  {| AWS_ACCESS_ID := "id"; AWS_SECRET_KEY := "key";
     AWS_REGIONS := "us-east-1|eu-west-1"; AWS_VOL_SIZE := "7";
     AWS_BUCKET_NAME := "fedimg" |}.

Definition arch (file_name : string) : string := "x86_64".

Definition vol0 : Volume := {| vol_id := "vol-01234567890abcdef" |}.
Definition snap0 : Snapshot := {| snap_id := "snap-1"; snap_state := "completed" |}.
Definition img0 : Image := {| img_id := "ami-1" |}.
Definition drv0 : Driver :=
  {| drv_region := "us-east-1"; drv_access_id := "id"; drv_secret_key := "key" |}.

Definition status_done : string := "Status completed VolumeId vol-01234567890abcdef".

(** A provider where every call succeeds at once, but for the import
    command, which prints [import_out], and for the registration issued as
    event number [dup_at], which is refused as a duplicate name. *)
Definition provider (import_out : string) (dup_at : nat) : Cloud :=
  {| ex_list_availability_zones := fun _ => inr [ {| zone_name := "us-east-1a" |} ];
     run_system_command :=
       fun n _ => if Nat.eqb n 2 then (import_out, EmptyString)
                  else (status_done, EmptyString);
     list_volumes := fun _ => inr [vol0];
     create_volume_snapshot := fun _ _ _ => inr snap0;
     list_snapshots := fun _ => inr [snap0];
     ex_modify_snapshot_attribute := fun _ _ => inr tt;
     destroy_volume := fun _ _ => inr tt;
     ex_register_image :=
       fun n _ => if Nat.eqb n dup_at
                  then inl (ProviderError "InvalidAMIName.Duplicate: name in use")
                  else inr img0;
     delete_image := fun _ _ => inr tt;
     destroy_volume_snapshot := fun _ _ => inr tt |}.

Definition import_ok : string := "IMPORTVOLUME TaskId import-vol-abcdefgh".

(** The provider of an undisturbed run. *)
Definition calm : Cloud := provider import_ok 0.

(** The calm provider with a shell that prints [out] whatever is run. *)
Definition saying (out : string) : Cloud :=
  {| ex_list_availability_zones := ex_list_availability_zones calm;
     run_system_command := fun _ _ => (out, EmptyString);
     list_volumes := list_volumes calm;
     create_volume_snapshot := create_volume_snapshot calm;
     list_snapshots := list_snapshots calm;
     ex_modify_snapshot_attribute := ex_modify_snapshot_attribute calm;
     destroy_volume := destroy_volume calm;
     ex_register_image := ex_register_image calm;
     delete_image := delete_image calm;
     destroy_volume_snapshot := destroy_volume_snapshot calm |}.

Definition job : EC2Service :=
  __init__ cfg arch "http://example.org/pub/Fedora-26.x86_64.raw.xz" "/tmp/d" "hvm" "gp2".

Definition st_of (s : EC2Service) : St := {| self := s; trace := [] |}.

Definition hvm_pv (url : string) : list string := ["hvm"; "paravirtual"].

End Demo.

(** ** Reading a trace *)

(** The events that were issued between the states [st] and [st']. *)
Definition new_events (st st' : St) : list Event :=
  map event (skipn (List.length (trace st)) (trace st')).

(** The names that were offered to [ex_register_image], in order. *)
Fixpoint registered_names (t : list Event) : list string :=
  match t with
  | [] => []
  | OnDriver _ (RegisterImage name _ _ _ _ _) :: r => name :: registered_names r
  | _ :: r => registered_names r
  end.

(** ** The outcomes of the status parser, as the specification words them *)

Module Status.
Import PyStr.

Fixpoint all_word (s : string) : bool :=
  match s with
  | EmptyString => true
  | String c r => is_word c && all_word r
  end.

(** [tok] is [pre] and [n] identifier characters, and it stands in [out]
    right after a white space character that follows [before]. *)
Definition token_at (pre : string) (n : nat) (out before tok : string) : Prop :=
  exists c w after,
    out = before ++ String c (tok ++ after)
    /\ is_space c = true
    /\ tok = pre ++ w
    /\ String.length w = n
    /\ all_word w = true.

(** What an attempt of the conversion poller may answer on the output [out]
    of the status query. *)
Inductive outcome (out : string) : Res string -> Prop :=
| not_yet :
    contains "completed" out = false ->
    outcome out (Ok EmptyString)
| volume_id (before tok : string) :
    contains "completed" out = true ->
    token_at "vol-" 17 out before tok ->
    (forall before' tok', token_at "vol-" 17 out before' tok' ->
                          String.length before <= String.length before') ->
    outcome out (Ok tok)
| malformed :
    contains "completed" out = true ->
    (forall before tok, ~ token_at "vol-" 17 out before tok) ->
    outcome out (Raise AttributeError).

End Status.

(** ** Properties of methods *)

(** [R] relates the state before a method to the state it leaves, whatever
    the method answers. *)
Definition stable {A : Type} (R : St -> St -> Prop) (m : M A) : Prop :=
  forall st, R st (snd (m st)).

(** The trace only grows. *)
Definition grows (st st' : St) : Prop :=
  exists l, trace st' = (trace st ++ l)%list.

(** The trace only grows and the volume reference stays. *)
Definition grows_keeping_volume (st st' : St) : Prop :=
  grows st st' /\ volume (self st') = volume (self st).

(** [Q] holds of what the method [m] answers and leaves from [st]. *)
Definition wp {A : Type} (m : M A) (Q : Res A * St -> Prop) (st : St) : Prop :=
  Q (m st).

(** ** The stages of an upload *)

Module Stages.

Inductive Stage :=
| Fresh | Announced | Zoned | Imported | Polling | Found | Waiting | Public
| Destroyed | Registering | Done.

Section Region.

(** The region of the job. *)
Variable r : string.

(** [follows a e b]: at stage [a] the orchestrator may issue [e], holding
    the references recorded in [e], and it is then at stage [b]. *)
Inductive follows : Stage -> Entry -> Stage -> Prop :=
| started url extra :
    follows Fresh
            {| event := Message "image.upload" url ("EC2 (" ++ r ++ ")") "started" extra;
               held_volume := None; held_snapshot := None; held_image := None |}
            Announced
| zones d :
    drv_region d = r ->
    follows Announced
            {| event := OnDriver d ListAvailabilityZones;
               held_volume := None; held_snapshot := None; held_image := None |}
            Zoned
| imported location image_name image_format bucket availability_zone :
    follows Zoned
            {| event := Shell (import_command location image_name image_format r
                                              (bucket ++ "-" ++ r) availability_zone);
               held_volume := None; held_snapshot := None; held_image := None |}
            Imported
| first_poll task_id :
    follows Imported
            {| event := Shell (describe_command task_id r);
               held_volume := None; held_snapshot := None; held_image := None |}
            Polling
| next_poll task_id :
    follows Polling
            {| event := Shell (describe_command task_id r);
               held_volume := None; held_snapshot := None; held_image := None |}
            Polling
| volumes d :
    drv_region d = r ->
    follows Polling
            {| event := OnDriver d ListVolumes;
               held_volume := None; held_snapshot := None; held_image := None |}
            Found
| snapshot_taken d v name :
    drv_region d = r ->
    follows Found
            {| event := OnDriver d (CreateVolumeSnapshot v name);
               held_volume := Some v; held_snapshot := None; held_image := None |}
            Waiting
| waited d v sn :
    drv_region d = r ->
    follows Waiting
            {| event := OnDriver d ListSnapshots;
               held_volume := Some v; held_snapshot := Some sn; held_image := None |}
            Waiting
| made_public d v sn :
    drv_region d = r ->
    follows Waiting
            {| event := OnDriver d (ModifySnapshotAttribute
                                      sn "CreateVolumePermission.Add.1.Group" "all");
               held_volume := Some v; held_snapshot := Some sn; held_image := None |}
            Public
| volume_destroyed d v sn :
    drv_region d = r ->
    follows Public
            {| event := OnDriver d (DestroyVolume v);
               held_volume := Some v; held_snapshot := Some sn; held_image := None |}
            Destroyed
| first_registration d sn name description root mapping virt arch :
    drv_region d = r ->
    follows Destroyed
            {| event := OnDriver d (RegisterImage name description root mapping virt arch);
               held_volume := None; held_snapshot := Some sn; held_image := None |}
            Registering
| next_registration d sn name description root mapping virt arch :
    drv_region d = r ->
    follows Registering
            {| event := OnDriver d (RegisterImage name description root mapping virt arch);
               held_volume := None; held_snapshot := Some sn; held_image := None |}
            Registering
| created url sn i extra :
    In ("region", r) extra ->
    follows Registering
            {| event := Message "image.create" url ("EC2 (" ++ r ++ ")") "created" extra;
               held_volume := None; held_snapshot := Some sn; held_image := Some i |}
            Done.

(** The traces that lead from a stage to a stage. *)
Inductive path : Stage -> list Entry -> Stage -> Prop :=
| path_nil a : path a [] a
| path_snoc a t b e c : path a t b -> follows b e c -> path a (t ++ [e])%list c.

(** The object at a stage: its driver, the references it holds and the
    trace it has left. *)
Definition at_stage (d : Driver) (v : option Volume) (sn : option Snapshot)
           (i : option Image) (a : Stage) (st : St) : Prop :=
  driver (self st) = Some d
  /\ volume (self st) = v
  /\ snapshot (self st) = sn
  /\ image (self st) = i
  /\ path Fresh (trace st) a.

(** The event is addressed to the region [r]. *)
Definition in_region (e : Event) : Prop :=
  match e with
  | OnDriver d _ => drv_region d = r
  | Shell cmd =>
      (exists location image_name image_format bucket availability_zone,
          cmd = import_command location image_name image_format r
                               (bucket ++ "-" ++ r) availability_zone)
      \/ (exists task_id, cmd = describe_command task_id r)
  | Message _ _ dest _ _ => dest = "EC2 (" ++ r ++ ")"
  end.

End Region.

(** The events that are issued with both a volume and a snapshot held. *)
Definition between_snapshot_and_destruction (e : Event) : Prop :=
  match e with
  | OnDriver _ ListSnapshots => True
  | OnDriver _ (ModifySnapshotAttribute _ _ _) => True
  | OnDriver _ (DestroyVolume _) => True
  | _ => False
  end.

(** The events of the registration and of its announcement. *)
Definition registration (e : Event) : Prop :=
  match e with
  | OnDriver _ (RegisterImage _ _ _ _ _ _) => True
  | Message topic _ _ _ _ => topic = "image.create"
  | _ => False
  end.

End Stages.

(** ** States to clean up *)

Module CleanUp.

(** A state that holds a snapshot and no image. *)
Definition snapshot_only : St :=
  Demo.st_of (with_snapshot (Some Demo.snap0) Demo.job).

(** A state that holds an image and a snapshot. *)
Definition image_and_snapshot : St :=
  Demo.st_of (with_image (Some Demo.img0) (with_snapshot (Some Demo.snap0) Demo.job)).

End CleanUp.


(** ** Reading the registrations of a trace *)

(** The name after [k] renames of the registrar. *)
Definition renamed (k : nat) (name : string) : string := Nat.iter k Re.sub_digit name.

(** The name, the root device and the block device mapping of every
    registration call, in order. *)
Fixpoint registrations (t : list Event) : list (string * string * list BlockDevice) :=
  match t with
  | [] => []
  | OnDriver _ (RegisterImage name _ root mapping _ _) :: r =>
      (name, root, mapping) :: registrations r
  | _ :: r => registrations r
  end.

(** The registration calls that the provider refuses as duplicate names,
    among the events [t] that were issued from event number [k] on: the call
    issued as event number [n] is answered by [ex_register_image cloud n]. *)
Fixpoint duplicate_refusals (cloud : Cloud) (k : nat) (t : list Event) : nat :=
  match t with
  | [] => 0
  | e :: r =>
      (match e with
       | OnDriver _ (RegisterImage name _ _ _ _ _) =>
           match ex_register_image cloud k name with
           | inl x =>
               if PyStr.contains "InvalidAMIName.Duplicate" (str_of_exc x) then 1 else 0
           | inr _ => 0
           end
       | _ => 0
       end) + duplicate_refusals cloud (S k) r
  end.

(** The block device mapping that [upload] registers with. *)
Definition mapping_of (fedimg : Config) (s : EC2Service) (root : string) (sn : Snapshot)
  : list BlockDevice :=
  [{| DeviceName := root; SnapshotId := snap_id sn;
      VolumeSize := AWS_VOL_SIZE fedimg; VolumeType := vol_type s;
      DeleteOnTermination := "true" |}].

(** ** The job of an object *)

(** What [__init__] makes of its arguments, the references and the
    attributes that [upload] sets left out. *)
Definition job_of (s : EC2Service) : EC2Service :=
  with_volume None (with_image None (with_snapshot None
    (with_destination None (with_driver None s)))).

(** The object is still the one of the same job. *)
Definition same_job (st st' : St) : Prop := job_of (self st') = job_of (self st).

(** The unit of work of an object: source URL, virtualization type and
    volume type. *)
Definition unit_of_work (s : EC2Service) : string * string * string :=
  (raw_url s, virt_type s, vol_type s).

(** ** The order of the stages *)

Module Calls.

Definition rank (a : Stages.Stage) : nat :=
  match a with
  | Stages.Fresh => 0
  | Stages.Announced => 1
  | Stages.Zoned => 2
  | Stages.Imported => 3
  | Stages.Polling => 4
  | Stages.Found => 5
  | Stages.Waiting => 6
  | Stages.Public => 7
  | Stages.Destroyed => 8
  | Stages.Registering => 9
  | Stages.Done => 10
  end.

Definition is_registration (e : Event) : bool :=
  match e with
  | OnDriver _ (RegisterImage _ _ _ _ _ _) => true
  | _ => false
  end.

End Calls.

(** ** The calls of the registrar *)

(** The call that [register_image] makes for the name [name]. *)
Definition registration_of (s : EC2Service) (d : Driver) (name root : string)
           (mapping : list BlockDevice) : Event :=
  OnDriver d (RegisterImage name (image_desc s) root mapping (virt_type s) (image_arch s)).

(** The first [n] calls of [register_image] when it starts from [name]. *)
Definition attempts (s : EC2Service) (d : Driver) (name root : string)
           (mapping : list BlockDevice) (n : nat) : list Event :=
  map (fun k => registration_of s d (renamed k name) root mapping) (seq 0 n).

(** ** Characters of a name *)

Module Text.

(** [c in s] for a character [c]. *)
Fixpoint has_char (c : ascii) (s : string) : bool :=
  match s with
  | EmptyString => false
  | String x r => Ascii.eqb x c || has_char c r
  end.

(** Some character of [s] is a digit. *)
Fixpoint has_digit (s : string) : bool :=
  match s with
  | EmptyString => false
  | String x r => PyStr.is_digit x || has_digit r
  end.

End Text.

(** ** Counting the calls of a trace *)

Module Counting.

Definition is_create_snapshot (e : Event) : bool :=
  match e with
  | OnDriver _ (CreateVolumeSnapshot _ _) => true
  | _ => false
  end.

Definition is_modify_snapshot (e : Event) : bool :=
  match e with
  | OnDriver _ (ModifySnapshotAttribute _ _ _) => true
  | _ => false
  end.

Definition is_destroy_volume (e : Event) : bool :=
  match e with
  | OnDriver _ (DestroyVolume _) => true
  | _ => false
  end.

(** The calls that only the cleanup makes. *)
Definition is_removal (e : Event) : bool :=
  match e with
  | OnDriver _ (DeleteImage _) => true
  | OnDriver _ (DestroyVolumeSnapshot _) => true
  | _ => false
  end.

Definition count (p : Event -> bool) (t : list Entry) : nat :=
  List.length (filter (fun e => p (event e)) t).

End Counting.

(** ** Providers that fail *)

Module Faults.

(** The calm provider in a region without an available zone. *)
Definition no_zone : Cloud :=
  {| ex_list_availability_zones := fun _ => inr [];
     run_system_command := run_system_command Demo.calm;
     list_volumes := list_volumes Demo.calm;
     create_volume_snapshot := create_volume_snapshot Demo.calm;
     list_snapshots := list_snapshots Demo.calm;
     ex_modify_snapshot_attribute := ex_modify_snapshot_attribute Demo.calm;
     destroy_volume := destroy_volume Demo.calm;
     ex_register_image := ex_register_image Demo.calm;
     delete_image := delete_image Demo.calm;
     destroy_volume_snapshot := destroy_volume_snapshot Demo.calm |}.

(** The calm provider where every driver call of the cleanup is refused. *)
Definition refusing : Cloud :=
  {| ex_list_availability_zones := ex_list_availability_zones Demo.calm;
     run_system_command := run_system_command Demo.calm;
     list_volumes := list_volumes Demo.calm;
     create_volume_snapshot := create_volume_snapshot Demo.calm;
     list_snapshots := list_snapshots Demo.calm;
     ex_modify_snapshot_attribute := ex_modify_snapshot_attribute Demo.calm;
     destroy_volume := destroy_volume Demo.calm;
     ex_register_image := fun _ _ => inl (ProviderError "AuthFailure");
     delete_image := fun _ _ => inl (ProviderError "AuthFailure");
     destroy_volume_snapshot := fun _ _ => inl (ProviderError "AuthFailure") |}.

(** A snapshot that is still being taken. *)
Definition pending : Snapshot := {| snap_id := "snap-1"; snap_state := "pending" |}.

(** The calm provider whose snapshot is pending when it is created and at
    the first listing, and completed at the second. *)
Definition slow_snapshot : Cloud :=
  {| ex_list_availability_zones := ex_list_availability_zones Demo.calm;
     run_system_command := run_system_command Demo.calm;
     list_volumes := list_volumes Demo.calm;
     create_volume_snapshot := fun _ _ _ => inr pending;
     list_snapshots := fun n => if Nat.eqb n 0 then inr [pending] else inr [Demo.snap0];
     ex_modify_snapshot_attribute := ex_modify_snapshot_attribute Demo.calm;
     destroy_volume := destroy_volume Demo.calm;
     ex_register_image := ex_register_image Demo.calm;
     delete_image := delete_image Demo.calm;
     destroy_volume_snapshot := destroy_volume_snapshot Demo.calm |}.

(** The calm provider whose conversion is reported as completed at the third
    status query. *)
Definition slow_conversion : Cloud :=
  {| ex_list_availability_zones := ex_list_availability_zones Demo.calm;
     run_system_command :=
       fun n _ => if Nat.ltb n 2 then ("Status active", EmptyString)
                  else (Demo.status_done, EmptyString);
     list_volumes := list_volumes Demo.calm;
     create_volume_snapshot := create_volume_snapshot Demo.calm;
     list_snapshots := list_snapshots Demo.calm;
     ex_modify_snapshot_attribute := ex_modify_snapshot_attribute Demo.calm;
     destroy_volume := destroy_volume Demo.calm;
     ex_register_image := ex_register_image Demo.calm;
     delete_image := delete_image Demo.calm;
     destroy_volume_snapshot := destroy_volume_snapshot Demo.calm |}.

(** An object with its driver set, as [upload] sets it. *)
Definition ready : St := Demo.st_of (with_driver (Some Demo.drv0) Demo.job).

(** The object when the pending snapshot has just been created. *)
Definition waiting : St :=
  {| self := with_snapshot (Some pending) (self ready); trace := [] |}.

(** The snapshot that [slow_snapshot] shows at the creation and at the two
    listings. *)
Definition shown (j : nat) : Snapshot := if Nat.ltb j 2 then pending else Demo.snap0.

End Faults.

(** * Theorems *)

Example split_regions : PyStr.split "|" "us-east-1|eu-west-1" = ["us-east-1"; "eu-west-1"].
Proof. reflexivity. Qed.

Example replace_raw_xz :
  PyStr.replace ".raw.xz" "" "Fedora-Cloud-Base-26.x86_64.raw.xz" = "Fedora-Cloud-Base-26.x86_64".
Proof. reflexivity. Qed.

Example search_vol :
  Re.search_token "vol-" 17 "Status completed VolumeId vol-01234567890abcdef x"
  = Some "vol-01234567890abcdef".
Proof. reflexivity. Qed.

Example sub_digit_9 : Re.sub_digit "foo-9" = "foo-10".
Proof. reflexivity. Qed.

Example increment_foo_19 : NameSpec.increment_final_run "foo-19" = "foo-20".
Proof. reflexivity. Qed.

Example increment_foo_9 : NameSpec.increment_final_run "foo-9" = "foo-10".
Proof. reflexivity. Qed.

(** ** Traces *)

Lemma new_events_app (st st' : St) (l : list Entry) :
  trace st' = (trace st ++ l)%list -> new_events st st' = map event l.
Proof.
  intros H. unfold new_events. rewrite H, skipn_app, skipn_all, Nat.sub_diag.
  reflexivity.
Qed.

Lemma new_events_refl (st : St) : new_events st st = [].
Proof.
  apply (new_events_app st st []). now rewrite app_nil_r.
Qed.

(** ** The registrar's rename *)

(** C1.  On a duplicate-name error the registrar retries with
    [re.sub('\d(?!\d)', ...)] of the name, which increments the last digit of
    every digit run of the name, not the final run as an integer: [foo-19]
    becomes [foo-110] where the final run plus one is [foo-20], and a name of
    the pipeline has its build number, its region and its volume type
    changed as well. *)
Theorem register_image_rename_touches_every_digit_run :
  Re.sub_digit "foo-19" = "foo-110"
  /\ NameSpec.increment_final_run "foo-19" = "foo-20"
  /\ Re.sub_digit "Fedora-26.x86_64-us-east-1-HVM-gp2-0"
     = "Fedora-27.x87_65-us-east-2-HVM-gp3-1"
  /\ registered_names
       (map event
            (trace (snd (run_upload Demo.cfg spec_policy
                                    (Demo.provider Demo.import_ok 8) 3 Demo.job))))
     = ["Fedora-26.x86_64-us-east-1-HVM-gp2-0";
        "Fedora-27.x87_65-us-east-2-HVM-gp3-1"].
Proof. repeat split; vm_compute; reflexivity. Qed.

(** ** The cleanup routine *)


Lemma clean_up_cases (cloud : Cloud) (drv : Driver) (delete_images : bool) (st : St) :
  fst (_clean_up cloud drv delete_images st) = Ok tt ->
  let st' := snd (_clean_up cloud drv delete_images st) in
  exists l,
    trace st' = (trace st ++ l)%list
    /\ map event l
       = ((match delete_images, image (self st) with
           | true, Some i => [OnDriver drv (DeleteImage i)]
           | _, _ => []
           end)
          ++ (match snapshot (self st), image (self st) with
              | Some sn, Some _ => [OnDriver drv (DestroyVolumeSnapshot sn)]
              | _, _ => []
              end))%list
    /\ self st'
       = match image (self st) with
         | Some _ => with_snapshot None (self st)
         | None => self st
         end.
Proof.
  destruct st as [s t]. unfold _clean_up, bind, get_self, on_driver, modify_self, ret, log.
  simpl.
  destruct delete_images, (image s) as [i|] eqn:Hi; simpl; rewrite ?Hi.
  - destruct (delete_image cloud (List.length t) i) as [e|[]]; simpl; [discriminate|].
    rewrite Hi.
    destruct (snapshot s) as [sn|] eqn:Hs; simpl.
    + destruct (destroy_volume_snapshot cloud _ sn) as [e|[]]; simpl; [discriminate|].
      intros _. eexists [_; _]. rewrite <- app_assoc. simpl. repeat split.
    + intros _. eexists [_]. simpl. repeat split.
      destruct s; simpl in *; subst; reflexivity.
  - destruct (snapshot s); intros _; exists []; rewrite app_nil_r; repeat split.
  - destruct (snapshot s) as [sn|] eqn:Hs; simpl.
    + destruct (destroy_volume_snapshot cloud _ sn) as [e|[]]; simpl; [discriminate|].
      intros _. eexists [_]. simpl. repeat split.
    + intros _. exists []. rewrite app_nil_r. repeat split.
      destruct s; simpl in *; subst; reflexivity.
  - destruct (snapshot s); intros _; exists []; rewrite app_nil_r; repeat split.
Qed.

(** C2, as the code has it: the snapshot is destroyed and its reference
    cleared exactly when a Snapshot reference and an Image reference are both
    held; the deletion of the image is requested exactly when [delete_images]
    is true and an Image reference is held; the image reference stays. *)
Theorem clean_up_effect (cloud : Cloud) (drv : Driver) (delete_images : bool) (st : St) :
  fst (_clean_up cloud drv delete_images st) = Ok tt ->
  let st' := snd (_clean_up cloud drv delete_images st) in
  (forall i, In (OnDriver drv (DeleteImage i)) (new_events st st')
             <-> delete_images = true /\ image (self st) = Some i)
  /\ (forall sn, In (OnDriver drv (DestroyVolumeSnapshot sn)) (new_events st st')
                 <-> snapshot (self st) = Some sn /\ image (self st) <> None)
  /\ snapshot (self st')
     = match image (self st) with
       | Some _ => None
       | None => snapshot (self st)
       end
  /\ image (self st') = image (self st).
Proof.
  intros Hok st'.
  destruct (clean_up_cases cloud drv delete_images st Hok) as (l & Ht & Hl & Hs).
  fold st' in Ht, Hs.
  rewrite (new_events_app st st' l Ht), Hl.
  repeat split.
  - destruct delete_images; [reflexivity|].
    destruct (snapshot (self st)), (image (self st)); simpl in H;
      intuition discriminate.
  - destruct delete_images, (snapshot (self st)), (image (self st)); simpl in H;
      intuition congruence.
  - intros [-> ->]. simpl. now left.
  - destruct delete_images, (snapshot (self st)), (image (self st)); simpl in H;
      intuition congruence.
  - destruct delete_images, (snapshot (self st)), (image (self st)); simpl in H;
      intuition congruence.
  - intros [-> Hi]. destruct (image (self st)); [|congruence].
    apply in_or_app. right. now left.
  - rewrite Hs. destruct (image (self st)); reflexivity.
  - rewrite Hs. destruct (image (self st)) eqn:E; simpl; auto.
Qed.

Lemma clean_up_effect_witness :
  fst (_clean_up Demo.calm Demo.drv0 true CleanUp.image_and_snapshot) = Ok tt
  /\ snapshot (self (snd (_clean_up Demo.calm Demo.drv0 true CleanUp.image_and_snapshot)))
     = None.
Proof.
  split; [reflexivity|].
  exact (proj1 (proj2 (proj2
    (clean_up_effect Demo.calm Demo.drv0 true CleanUp.image_and_snapshot eq_refl)))).
Defined.

(** C2 fails as it is written: with a snapshot held and no image held, the
    cleanup issues no call and the snapshot stays referenced. *)
Lemma clean_up_leaves_snapshot_without_image :
  snapshot (self CleanUp.snapshot_only) = Some Demo.snap0
  /\ fst (_clean_up Demo.calm Demo.drv0 true CleanUp.snapshot_only) = Ok tt
  /\ new_events CleanUp.snapshot_only
                (snd (_clean_up Demo.calm Demo.drv0 true CleanUp.snapshot_only)) = []
  /\ snapshot (self (snd (_clean_up Demo.calm Demo.drv0 true CleanUp.snapshot_only)))
     <> None.
Proof. repeat split; vm_compute; discriminate. Qed.

(** C7, as the code has it: after a cleanup that went through, a second one
    leaves the object as it is and never touches the snapshot; it issues no
    call when [delete_images] is false or no image is held, and otherwise it
    requests the deletion of the image once more, the image reference not
    being cleared by the first. *)
Theorem clean_up_twice (cloud : Cloud) (drv : Driver) (delete_images : bool) (st : St) :
  fst (_clean_up cloud drv delete_images st) = Ok tt ->
  let st1 := snd (_clean_up cloud drv delete_images st) in
  let r2 := _clean_up cloud drv delete_images st1 in
  self (snd r2) = self st1
  /\ new_events st1 (snd r2)
     = match delete_images, image (self st) with
       | true, Some i => [OnDriver drv (DeleteImage i)]
       | _, _ => []
       end
  /\ match delete_images, image (self st) with
     | true, Some _ => True
     | _, _ => r2 = (Ok tt, st1)
     end.
Proof.
  intros Hok st1 r2.
  destruct (clean_up_cases cloud drv delete_images st Hok) as (l & Ht & Hl & Hs).
  fold st1 in Ht, Hs.
  assert (Hsnap : match image (self st1) with
                  | Some _ => snapshot (self st1) = None
                  | None => True
                  end).
  { rewrite Hs. destruct (image (self st)) eqn:E; simpl; rewrite ?E; auto. }
  assert (Him : image (self st1) = image (self st)).
  { rewrite Hs. destruct (image (self st)) eqn:E; simpl; auto. }
  subst r2. clearbody st1. clear Ht Hl Hs Hok.
  destruct st1 as [s1 t1]. simpl in *.
  unfold _clean_up, bind, get_self, on_driver, modify_self, ret, log, new_events.
  simpl. rewrite <- Him.
  destruct delete_images, (image s1) as [i|] eqn:Hi; simpl; rewrite ?Hi.
  - destruct (delete_image cloud (List.length t1) i) as [e|[]]; simpl.
    + rewrite skipn_app, skipn_all, Nat.sub_diag. auto.
    + rewrite Hi, Hsnap. simpl. rewrite skipn_app, skipn_all, Nat.sub_diag. auto.
  - destruct (snapshot s1); simpl; rewrite skipn_all; auto.
  - rewrite Hsnap. simpl. rewrite skipn_all. auto.
  - destruct (snapshot s1); simpl; rewrite skipn_all; auto.
Qed.

Lemma clean_up_twice_witness :
  fst (_clean_up Demo.calm Demo.drv0 false CleanUp.image_and_snapshot) = Ok tt
  /\ self (snd (_clean_up Demo.calm Demo.drv0 false
                  (snd (_clean_up Demo.calm Demo.drv0 false CleanUp.image_and_snapshot))))
     = self (snd (_clean_up Demo.calm Demo.drv0 false CleanUp.image_and_snapshot)).
Proof.
  split; [reflexivity|].
  exact (proj1 (clean_up_twice Demo.calm Demo.drv0 false CleanUp.image_and_snapshot eq_refl)).
Defined.

(** C7 fails as it is written: with an image held and [delete_images] true,
    the second cleanup calls the driver again. *)
Lemma clean_up_second_call_deletes_again :
  fst (_clean_up Demo.calm Demo.drv0 true CleanUp.image_and_snapshot) = Ok tt
  /\ new_events (snd (_clean_up Demo.calm Demo.drv0 true CleanUp.image_and_snapshot))
                (snd (_clean_up Demo.calm Demo.drv0 true
                        (snd (_clean_up Demo.calm Demo.drv0 true
                                CleanUp.image_and_snapshot))))
     = [OnDriver Demo.drv0 (DeleteImage Demo.img0)]
  /\ new_events (snd (_clean_up Demo.calm Demo.drv0 true CleanUp.image_and_snapshot))
                (snd (_clean_up Demo.calm Demo.drv0 true
                        (snd (_clean_up Demo.calm Demo.drv0 true
                                CleanUp.image_and_snapshot))))
     <> [].
Proof. repeat split; vm_compute; discriminate. Qed.

(** ** The batch dispatcher *)

Section Dispatch.

Variable fedimg : Config.
Variable get_file_arch : string -> string.
Variable policy : RetryPolicy.
Variable virt_types_from_url : string -> list string.
Variable tmpdir : string.

Lemma services_of_url_length (url : string) :
  List.length (services_of_url fedimg get_file_arch virt_types_from_url tmpdir url)
  = 2 * List.length (virt_types_from_url url).
Proof.
  unfold services_of_url.
  induction (virt_types_from_url url) as [|vt l IH]; simpl in *; lia.
Qed.

Lemma services_length (urls : list string) :
  List.length (services fedimg get_file_arch virt_types_from_url tmpdir urls)
  = 2 * list_sum (map (fun u => List.length (virt_types_from_url u)) urls).
Proof.
  unfold services.
  induction urls as [|u l IH]; simpl; [reflexivity|].
  rewrite length_app, IH, services_of_url_length. lia.
Qed.

Lemma pool_map_length (clouds : nat -> Cloud) (fuel : nat) (l : list EC2Service) :
  List.length (pool_map fedimg policy clouds fuel l) = List.length l.
Proof.
  unfold pool_map. rewrite length_map, length_combine, length_seq. lia.
Qed.

End Dispatch.

(** C9 fails as it is written: three URLs of two virtualization types each
    are dispatched as twelve runs, not six. *)
Lemma batch_of_three_is_not_six :
  List.length ["a"; "b"; "c"] = 3
  /\ List.length (Demo.hvm_pv "a") = 2
  /\ List.length (runs (uploader_upload Demo.cfg Demo.arch spec_policy Demo.hvm_pv "/tmp/d"
                                        (fun _ => Demo.calm) 3 ["a"; "b"; "c"])) <> 6.
Proof. repeat split; vm_compute; discriminate. Qed.

(** ** The regular expressions *)

Section Strings.
Import PyStr.

Lemma append_assoc (a b c : string) : (a ++ b) ++ c = a ++ (b ++ c).
Proof. induction a as [|x a IH]; simpl; [reflexivity|now rewrite IH]. Qed.

Lemma prefix_append (p r : string) : prefix p (p ++ r) = true.
Proof.
  induction p as [|x p IH]; simpl; [now destruct r|].
  destruct (ascii_dec x x) as [_|N]; [exact IH|now elim N].
Qed.

Lemma prefix_split (p s : string) :
  prefix p s = true -> s = p ++ drop (String.length p) s.
Proof.
  revert s. induction p as [|x p IH]; intros s H; simpl.
  - now destruct s.
  - destruct s as [|y s]; simpl in H; [discriminate|].
    destruct (ascii_dec x y) as [->|]; [|discriminate].
    simpl. now rewrite <- IH.
Qed.

Lemma drop_append (p r : string) : drop (String.length p) (p ++ r) = r.
Proof. induction p as [|x p IH]; simpl; [now destruct r|exact IH]. Qed.

Lemma length_append (a b : string) :
  String.length (a ++ b) = String.length a + String.length b.
Proof. induction a as [|x a IH]; simpl; [reflexivity|now rewrite IH]. Qed.

Lemma append_inv_head (a b c : string) : a ++ b = a ++ c -> b = c.
Proof. induction a as [|x a IH]; simpl; intros H; [exact H|]. injection H. exact IH. Qed.

End Strings.

Section Searching.
Import PyStr Re Status.

Lemma word_run_some (n : nat) (s w : string) :
  word_run n s = Some w ->
  exists after, s = w ++ after /\ String.length w = n /\ all_word w = true.
Proof.
  revert s w. induction n as [|n IH]; intros s w H; simpl in H.
  - injection H as <-. exists s. now destruct s.
  - destruct s as [|c r]; [discriminate|].
    destruct (is_word c) eqn:Hc; [|discriminate].
    destruct (word_run n r) as [w'|] eqn:Hr; [|discriminate].
    injection H as <-. destruct (IH _ _ Hr) as (after & -> & Hl & Hw).
    exists after. simpl. rewrite Hc, Hl, Hw. auto.
Qed.

Lemma word_run_append (w after : string) :
  all_word w = true -> word_run (String.length w) (w ++ after) = Some w.
Proof.
  induction w as [|c w IH]; simpl; intros H; [reflexivity|].
  apply andb_prop in H as [Hc Hw]. now rewrite Hc, IH.
Qed.

Lemma match_here_some (pre : string) (n : nat) (s t : string) :
  match_here pre n s = Some t ->
  exists w after,
    s = t ++ after /\ t = pre ++ w /\ String.length w = n /\ all_word w = true.
Proof.
  unfold match_here. intros H.
  destruct (prefix pre s) eqn:Hp; [|discriminate].
  destruct (word_run n _) as [w|] eqn:Hw; [|discriminate].
  injection H as <-. destruct (word_run_some _ _ _ Hw) as (after & Hd & Hl & Ha).
  exists w, after. rewrite append_assoc, <- Hd. auto using prefix_split.
Qed.

Lemma match_here_append (pre w after : string) :
  all_word w = true ->
  match_here pre (String.length w) ((pre ++ w) ++ after) = Some (pre ++ w).
Proof.
  intros H. unfold match_here.
  now rewrite append_assoc, prefix_append, drop_append, word_run_append.
Qed.

Lemma token_at_head (pre : string) (n : nat) (c : ascii) (r tok : string) :
  token_at pre n (String c r) EmptyString tok ->
  is_space c = true /\ match_here pre n r = Some tok.
Proof.
  intros (c' & w & after & Ho & Hc & -> & <- & Hw). simpl in Ho.
  injection Ho as <- ->. split; [exact Hc|]. now apply match_here_append.
Qed.

Lemma token_at_tail (pre : string) (n : nat) (c x : ascii) (r before tok : string) :
  token_at pre n (String c r) (String x before) tok -> token_at pre n r before tok.
Proof.
  intros (c' & w & after & Ho & H). simpl in Ho. injection Ho as _ ->.
  now exists c', w, after.
Qed.

Lemma token_at_cons (pre : string) (n : nat) (c : ascii) (r before tok : string) :
  token_at pre n r before tok -> token_at pre n (String c r) (String c before) tok.
Proof.
  intros (c' & w & after & -> & H). now exists c', w, after.
Qed.

(** A match of [re.search] is a token after a white space, the leftmost
    one. *)
Lemma search_token_some (pre : string) (n : nat) (s tok : string) :
  search_token pre n s = Some tok ->
  exists before,
    token_at pre n s before tok
    /\ forall before' tok', token_at pre n s before' tok' ->
                            String.length before <= String.length before'.
Proof.
  induction s as [|c r IH]; simpl; [discriminate|]. intros H.
  destruct (is_space c) eqn:Hc.
  - destruct (match_here pre n r) as [t|] eqn:Hm.
    + injection H as ->. exists EmptyString. split; [|simpl; intros; lia].
      destruct (match_here_some _ _ _ _ Hm) as (w & after & -> & Ht & Hl & Hw).
      now exists c, w, after.
    + destruct (IH H) as (before & Hat & Hleft). exists (String c before).
      split; [now apply token_at_cons|]. intros [|x b'] t' Ht'.
      * apply token_at_head in Ht' as [_ Ht']. congruence.
      * simpl. apply token_at_tail in Ht'. apply Hleft in Ht'. lia.
  - destruct (IH H) as (before & Hat & Hleft). exists (String c before).
    split; [now apply token_at_cons|]. intros [|x b'] t' Ht'.
    + apply token_at_head in Ht' as [Ht' _]. congruence.
    + simpl. apply token_at_tail in Ht'. apply Hleft in Ht'. lia.
Qed.

(** No match of [re.search]: no token stands after a white space. *)
Lemma search_token_none (pre : string) (n : nat) (s : string) :
  search_token pre n s = None -> forall before tok, ~ token_at pre n s before tok.
Proof.
  induction s as [|c r IH]; simpl; intros H before tok Ht.
  - destruct Ht as (c' & w & after & Ho & _). now destruct before.
  - destruct before as [|x b].
    + apply token_at_head in Ht as [Hc Hm]. rewrite Hc, Hm in H. discriminate.
    + apply token_at_tail in Ht. revert Ht. apply IH.
      destruct (is_space c); [destruct (match_here pre n r)|]; congruence.
Qed.

(** A match of [re.search] is a token of the output. *)
Lemma search_token_occurs (pre : string) (n : nat) (s tok : string) :
  search_token pre n s = Some tok -> Token.occurs pre n s = true.
Proof.
  induction s as [|c r IH]; simpl; [discriminate|]. intros H.
  assert (Hr : Token.occurs pre n r = true).
  { destruct (is_space c); [|auto].
    destruct (match_here pre n r) eqn:Hm; [|auto].
    destruct r; simpl; now rewrite Hm. }
  destruct (match_here pre n (String c r)); auto.
Qed.

End Searching.

(** ** The conversion poller *)

(** C4, as the code has it: an attempt answers the empty string, the not-yet
    signal, on every output without [completed]; on an output with
    [completed] it answers the leftmost [vol-] token of 17 identifier
    characters that stands right after a white space character, and it
    raises when there is no such token. *)
Theorem describe_conversion_tasks_outcome
        (cloud : Cloud) (task_id region : string) (st : St) :
  Status.outcome
    (fst (run_system_command cloud (List.length (trace st))
                             (describe_command task_id region)))
    (fst (describe_conversion_tasks_attempt cloud task_id region st)).
Proof.
  unfold describe_conversion_tasks_attempt, bind, system, conversion_status. simpl.
  set (out := fst (run_system_command cloud _ _)).
  destruct (PyStr.contains "completed" out) eqn:Hc.
  - destruct (Re.search_token "vol-" 17 out) as [tok|] eqn:Hs; simpl.
    + destruct (search_token_some _ _ _ _ Hs) as (before & Hat & Hleft).
      now apply Status.volume_id with before.
    + apply Status.malformed; [exact Hc|]. now apply search_token_none.
  - simpl. now apply Status.not_yet.
Qed.

(** C4 fails as it is written: a volume id that opens the output has no
    white space before it, and the attempt raises on it. *)
Lemma volume_id_at_line_start_is_missed :
  PyStr.contains "completed" "vol-01234567890abcdef completed" = true
  /\ Token.occurs "vol-" 17 "vol-01234567890abcdef completed" = true
  /\ fst (describe_conversion_tasks_attempt
            (Demo.saying "vol-01234567890abcdef completed")
            "import-vol-abcdefgh" "us-east-1" (Demo.st_of Demo.job))
     = Raise AttributeError
  /\ fst (describe_conversion_tasks_attempt
            (Demo.saying "vol-01234567890abcdef completed")
            "import-vol-abcdefgh" "us-east-1" (Demo.st_of Demo.job))
     <> Ok "vol-01234567890abcdef".
Proof. repeat split; vm_compute; discriminate. Qed.

(** Under the retry filters of the specification a not-yet answer is
    followed by another attempt. *)
Lemma not_yet_is_polled_again (cloud : Cloud) (fuel : nat) (task_id region : string) (st : St) :
  PyStr.contains "completed"
    (fst (run_system_command cloud (List.length (trace st))
                             (describe_command task_id region))) = false ->
  describe_conversion_tasks spec_policy cloud (S fuel) task_id region st
  = describe_conversion_tasks spec_policy cloud fuel task_id region
      (log (Shell (describe_command task_id region)) st).
Proof.
  intros H. unfold describe_conversion_tasks at 1. simpl.
  unfold describe_conversion_tasks_attempt, bind, system, conversion_status. simpl.
  rewrite H. reflexivity.
Qed.

(** ** What every method keeps *)

Section Stable.

Variable policy : RetryPolicy.
Variable cloud : Cloud.
Variable R : St -> St -> Prop.
Hypothesis R_refl : forall st, R st st.
Hypothesis R_trans : forall a b c, R a b -> R b c -> R a c.
Hypothesis R_log : forall e st, R st (log e st).

Lemma stable_ret {A} (a : A) : stable R (ret a).
Proof. intros st. apply R_refl. Qed.

Lemma stable_raise {A} (e : Exc) : stable R (@raise A e).
Proof. intros st. apply R_refl. Qed.

Lemma stable_get_self : stable R get_self.
Proof. intros st. apply R_refl. Qed.

Lemma stable_deref {A} (o : option A) : stable R (deref o).
Proof. destruct o; [apply stable_ret|apply stable_raise]. Qed.

Lemma stable_first_item {A} (l : list A) : stable R (first_item l).
Proof. destruct l; [apply stable_raise|apply stable_ret]. Qed.

Lemma stable_bind {A B} (m : M A) (k : A -> M B) :
  stable R m -> (forall a, stable R (k a)) -> stable R (bind m k).
Proof.
  intros Hm Hk st. unfold bind. specialize (Hm st).
  destruct (m st) as [[a|e|] st']; simpl in *; [|assumption..].
  apply R_trans with st'; [assumption|apply Hk].
Qed.

Lemma stable_on_driver {A} (d : Driver) (c : DriverCall) (answer : Cloud -> nat -> Exc + A) :
  stable R (on_driver cloud d c answer).
Proof.
  intros st. unfold on_driver. destruct (answer cloud _); apply R_log.
Qed.

Lemma stable_on_self_driver {A} (c : DriverCall) (answer : Cloud -> nat -> Exc + A) :
  stable R (on_self_driver cloud c answer).
Proof.
  unfold on_self_driver. apply stable_bind; [apply stable_get_self|intros s].
  apply stable_bind; [apply stable_deref|intros d]. apply stable_on_driver.
Qed.

Lemma stable_system (cmd : string) : stable R (system cloud cmd).
Proof. intros st. apply R_log. Qed.

Lemma stable_message (topic url dest status : string) (extra : list (string * string)) :
  stable R (message topic url dest status extra).
Proof. intros st. apply R_log. Qed.

Lemma stable_retry {A} (inj : A -> PyVal) (fuel : nat) (attempt : M A) :
  stable R attempt -> stable R (retry policy inj fuel attempt).
Proof.
  intros Ha. induction fuel as [|f IH]; intros st; simpl; [apply R_refl|].
  specialize (Ha st). destruct (attempt st) as [[a|e|] st']; simpl in *.
  - destruct (retry_if_result_false policy (inj a)); [|assumption].
    apply R_trans with st'; [assumption|apply IH].
  - destruct (retry_on_exception policy e); [|assumption].
    apply R_trans with st'; [assumption|apply IH].
  - assumption.
Qed.

(** The first attempt of a retried method is always made. *)
Lemma retry_first_attempt {A} (inj : A -> PyVal) (fuel : nat) (attempt : M A) (st : St) :
  stable R attempt ->
  R (snd (attempt st)) (snd (retry policy inj (S fuel) attempt st)).
Proof.
  intros Ha. simpl. destruct (attempt st) as [[a|e|] st']; simpl.
  - destruct (retry_if_result_false policy (inj a)); [|apply R_refl].
    now apply stable_retry.
  - destruct (retry_on_exception policy e); [|apply R_refl].
    now apply stable_retry.
  - apply R_refl.
Qed.

Lemma stable_describe_attempt (task_id region : string) :
  stable R (describe_conversion_tasks_attempt cloud task_id region).
Proof.
  unfold describe_conversion_tasks_attempt.
  apply stable_bind; [apply stable_system|intros oe].
  unfold conversion_status.
  destruct (PyStr.contains _ _); [|apply stable_ret].
  destruct (Re.search_token _ _ _); [apply stable_ret|apply stable_raise].
Qed.

Lemma stable_describe (fuel : nat) (task_id region : string) :
  stable R (describe_conversion_tasks policy cloud fuel task_id region).
Proof. apply stable_retry, stable_describe_attempt. Qed.

Hypothesis R_snapshot :
  forall x st, R st {| self := with_snapshot x (self st); trace := trace st |}.

Lemma stable_check_attempt (snapshot_id : string) :
  stable R (_check_snapshot_exists_attempt cloud snapshot_id).
Proof.
  unfold _check_snapshot_exists_attempt.
  apply stable_bind; [apply stable_get_self|intros s].
  apply stable_bind; [apply stable_deref|intros sn].
  destruct (negb _); [|apply stable_ret].
  apply stable_bind; [apply stable_on_self_driver|intros l].
  apply stable_bind; [apply stable_first_item|intros sn'].
  apply stable_bind; [|intros; apply stable_ret].
  intros st. apply R_snapshot.
Qed.

Lemma stable_check (fuel : nat) (snapshot_id : string) :
  stable R (_check_snapshot_exists policy cloud fuel snapshot_id).
Proof. apply stable_retry, stable_check_attempt. Qed.

Hypothesis R_self :
  forall f st, R st {| self := f (self st); trace := trace st |}.

Lemma stable_modify_self (f : EC2Service -> EC2Service) : stable R (modify_self f).
Proof. intros st. apply R_self. Qed.

Lemma stable_create_snapshot (fuel : nat) (volume_id : string) :
  stable R (create_snapshot policy cloud fuel volume_id).
Proof.
  unfold create_snapshot, find_volume.
  apply stable_bind; [apply stable_get_self|intros s].
  apply stable_bind; [apply stable_on_self_driver|intros vols].
  apply stable_bind; [apply stable_first_item|intros v].
  apply stable_bind; [apply stable_modify_self|intros _].
  apply stable_bind; [apply stable_on_self_driver|intros sn].
  apply stable_bind; [apply stable_modify_self|intros _].
  apply stable_check.
Qed.

Lemma stable_register_image_loop (fuel cnt : nat) (name root : string)
      (mapping : list BlockDevice) :
  stable R (register_image_loop cloud fuel cnt name root mapping).
Proof.
  revert cnt name. induction fuel as [|f IH]; intros cnt name st; simpl; [apply R_refl|].
  set (name' := if (0 <? cnt)%nat then Re.sub_digit name else name).
  pose proof (stable_on_self_driver
                (RegisterImage name' (image_desc (self st)) root mapping
                               (virt_type (self st)) (image_arch (self st)))
                (fun c n => ex_register_image c n name') st) as H.
  destruct (on_self_driver _ _ _ st) as [[i|e|] st']; simpl in *.
  - apply R_trans with st'; [assumption|apply R_self].
  - destruct (PyStr.contains _ _); [|assumption].
    apply R_trans with st'; [assumption|apply IH].
  - assumption.
Qed.

End Stable.

Lemma grows_refl (st : St) : grows st st.
Proof. exists []. now rewrite app_nil_r. Qed.

Lemma grows_trans (a b c : St) : grows a b -> grows b c -> grows a c.
Proof.
  intros [l1 H1] [l2 H2]. exists (l1 ++ l2)%list. now rewrite H2, H1, app_assoc.
Qed.

Lemma grows_log (e : Event) (st : St) : grows st (log e st).
Proof. now exists [entry_of (self st) e]. Qed.

Lemma grows_self (f : EC2Service -> EC2Service) (st : St) :
  grows st {| self := f (self st); trace := trace st |}.
Proof. exists []. simpl. now rewrite app_nil_r. Qed.

Lemma grows_nth_error (st st' : St) (n : nat) (e : Entry) :
  grows st st' -> nth_error (trace st) n = Some e -> nth_error (trace st') n = Some e.
Proof.
  intros [l ->] H. rewrite nth_error_app1; [exact H|].
  apply nth_error_Some. congruence.
Qed.

(** ** Running a method step by step *)

Lemma wp_bind {A B} (m : M A) (k : A -> M B) (Q : Res B * St -> Prop) (st : St) :
  wp m (fun x => match fst x with
                 | Ok a => wp (k a) Q (snd x)
                 | Raise e => Q (Raise e, snd x)
                 | OutOfFuel => Q (OutOfFuel, snd x)
                 end) st ->
  wp (bind m k) Q st.
Proof.
  unfold wp, bind. destruct (m st) as [[a|e|] st']; simpl; auto.
Qed.

Lemma on_self_driver_eq {A} (cloud : Cloud) (c : DriverCall)
      (answer : Cloud -> nat -> Exc + A) (st : St) (d : Driver) :
  driver (self st) = Some d ->
  on_self_driver cloud c answer st
  = (match answer cloud (List.length (trace st)) with
     | inl e => Raise e
     | inr a => Ok a
     end, log (OnDriver d c) st).
Proof.
  intros H. unfold on_self_driver, bind, get_self, on_driver. simpl. rewrite H. simpl.
  destruct (answer cloud _); reflexivity.
Qed.

Lemma wp_on_self_driver {A} (cloud : Cloud) (c : DriverCall)
      (answer : Cloud -> nat -> Exc + A) (Q : Res A * St -> Prop) (st : St) (d : Driver) :
  driver (self st) = Some d ->
  (forall e, Q (Raise e, log (OnDriver d c) st)) ->
  (forall a, Q (Ok a, log (OnDriver d c) st)) ->
  wp (on_self_driver cloud c answer) Q st.
Proof.
  intros H He Ha. unfold wp. rewrite (on_self_driver_eq cloud c answer st d H).
  destruct (answer cloud _); auto.
Qed.

(** One step of a method that neither branches nor loops. *)
Ltac wp_step :=
  apply wp_bind; unfold wp at 1;
  cbn [get_self modify_self message system ret raise fst snd].

Create HintDb stable.
#[local] Hint Resolve grows_refl grows_trans grows_log grows_self : stable.

Ltac stable_tac :=
  repeat (first
            [ apply stable_ret | apply stable_raise | apply stable_get_self
            | apply stable_deref | apply stable_first_item | apply stable_on_self_driver
            | apply stable_system | apply stable_message | apply stable_modify_self
            | apply stable_describe | apply stable_create_snapshot | apply stable_check
            | apply stable_register_image_loop | apply stable_bind | intros ? ];
          try solve [eauto with stable]).

(** ** The task id of the import *)

Lemma describe_attempt_state (cloud : Cloud) (task_id region : string) (st : St) :
  snd (describe_conversion_tasks_attempt cloud task_id region st)
  = log (Shell (describe_command task_id region)) st.
Proof.
  unfold describe_conversion_tasks_attempt, bind, system, conversion_status. simpl.
  destruct (PyStr.contains _ _); [|reflexivity].
  destruct (Re.search_token _ _ _); reflexivity.
Qed.

Lemma match_regex_pattern_no_token (output : string) :
  Token.occurs "import-vol-" 8 output = false -> match_regex_pattern output = EmptyString.
Proof.
  intros H. unfold match_regex_pattern.
  destruct (Re.search_token "import-vol-" 8 output) eqn:Hs; [|reflexivity].
  apply search_token_occurs in Hs. congruence.
Qed.

(** C5, as the code has it: on an import output without a task identifier
    [match_regex_pattern] answers the empty string, no error is raised, and
    the orchestrator goes on to query the conversion status of the empty task
    id. *)
Theorem upload_polls_the_empty_task_id
        (fedimg : Config) (policy : RetryPolicy) (cloud : Cloud) (fuel : nat)
        (s : EC2Service) (z : Zone) (zs : list Zone) :
  ex_list_availability_zones cloud 1 = inr (z :: zs) ->
  Token.occurs "import-vol-" 8
    (fst (run_system_command cloud 2
            (import_command (cwd s) (file_name s) "raw" (region s)
                            (AWS_BUCKET_NAME fedimg ++ "-" ++ region s) (zone_name z))))
  = false ->
  match_regex_pattern
    (fst (run_system_command cloud 2
            (import_command (cwd s) (file_name s) "raw" (region s)
                            (AWS_BUCKET_NAME fedimg ++ "-" ++ region s) (zone_name z))))
  = EmptyString
  /\ nth_error (trace (snd (run_upload fedimg policy cloud (S fuel) s))) 3
     = Some (entry_of s (Shell (describe_command EmptyString (region s)))).
Proof.
  intros Hz Hno. apply match_regex_pattern_no_token in Hno. split; [exact Hno|].
  unfold run_upload.
  change (wp (upload fedimg policy cloud (S fuel))
             (fun x => nth_error (trace (snd x)) 3
                       = Some (entry_of s (Shell (describe_command EmptyString (region s)))))
             {| self := s; trace := [] |}).
  unfold upload.
  wp_step. wp_step. wp_step. wp_step.
  apply wp_bind. unfold get_availability_zone. apply wp_bind. unfold wp at 1.
  erewrite on_self_driver_eq by reflexivity.
  cbn [trace log self List.length app]. rewrite Hz. cbn [fst snd first_item].
  unfold wp at 1. cbn [ret fst snd].
  apply wp_bind. unfold import_image_volume. wp_step. unfold wp at 1.
  cbn [system fst snd trace log self app List.length with_driver with_destination
       cwd file_name region]. rewrite Hno.
  unfold wp.
  set (st3 := log _ _).
  set (k := fun volume_id : string => _).
  assert (Hk : forall a, stable grows (k a)).
  { intros a. subst k. cbv beta. unfold register_image. stable_tac. }
  assert (H4 : nth_error
                 (trace (snd (describe_conversion_tasks_attempt
                                cloud EmptyString (region s) st3))) 3
               = Some (entry_of s (Shell (describe_command EmptyString (region s))))).
  { rewrite describe_attempt_state. reflexivity. }
  assert (Hp : grows (snd (describe_conversion_tasks_attempt cloud EmptyString (region s) st3))
                     (snd (describe_conversion_tasks policy cloud (S fuel) EmptyString
                                                     (region s) st3))).
  { unfold describe_conversion_tasks.
    apply retry_first_attempt; try solve [eauto with stable].
    apply stable_describe_attempt; eauto with stable. }
  assert (Hb : grows (snd (describe_conversion_tasks policy cloud (S fuel) EmptyString
                                                     (region s) st3))
                     (snd (bind (describe_conversion_tasks policy cloud (S fuel)
                                                           EmptyString (region s)) k st3))).
  { unfold bind. destruct (describe_conversion_tasks _ _ _ _ _ st3) as [[a|e|] st4];
      simpl; try apply grows_refl. apply Hk. }
  eapply grows_nth_error; [exact Hb|]. eapply grows_nth_error; [exact Hp|]. exact H4.
Qed.

Lemma upload_polls_the_empty_task_id_witness :
  nth_error (trace (snd (run_upload Demo.cfg spec_policy (Demo.provider "no task" 0) 3
                                    Demo.job))) 3
  = Some (entry_of Demo.job (Shell (describe_command EmptyString (region Demo.job)))).
Proof.
  refine (proj2 (upload_polls_the_empty_task_id
                   Demo.cfg spec_policy (Demo.provider "no task" 0) 2 Demo.job
                   {| zone_name := "us-east-1a" |} [] _ _)); reflexivity.
Defined.

(** C5 fails as it is written: an import output without a task identifier
    does not fail the run, which goes through to the end. *)
Lemma upload_without_task_id_goes_through :
  Token.occurs "import-vol-" 8 "no task" = false
  /\ fst (run_upload Demo.cfg spec_policy (Demo.provider "no task" 0) 3 Demo.job) = Ok tt
  /\ forall e, fst (run_upload Demo.cfg spec_policy (Demo.provider "no task" 0) 3 Demo.job)
               <> Raise e.
Proof. repeat split; try (vm_compute; reflexivity). intros e. vm_compute. discriminate. Qed.

(** ** The volume of the snapshot *)

Lemma filter_no_volume (volume_id : string) (vols : list Volume) :
  (forall v, In v vols -> vol_id v <> volume_id) ->
  filter (fun v => String.eqb (vol_id v) volume_id) vols = [].
Proof.
  induction vols as [|u l IH]; simpl; intros H; [reflexivity|].
  destruct (String.eqb_spec (vol_id u) volume_id) as [E|_].
  - elim (H u); auto.
  - apply IH. intros v Hv. apply H. now right.
Qed.

Lemma filter_first_volume (volume_id : string) (pre post : list Volume) (v : Volume) :
  vol_id v = volume_id ->
  (forall u, In u pre -> vol_id u <> volume_id) ->
  filter (fun v => String.eqb (vol_id v) volume_id) (pre ++ v :: post)
  = v :: filter (fun v => String.eqb (vol_id v) volume_id) post.
Proof.
  intros Hv Hpre. rewrite filter_app, (filter_no_volume _ _ Hpre). simpl.
  now rewrite <- Hv, String.eqb_refl.
Qed.

Lemma keeping_volume_refl (st : St) : grows_keeping_volume st st.
Proof. split; [apply grows_refl|reflexivity]. Qed.

Lemma keeping_volume_trans (a b c : St) :
  grows_keeping_volume a b -> grows_keeping_volume b c -> grows_keeping_volume a c.
Proof.
  intros [H1 E1] [H2 E2]. split; [now apply grows_trans with b|congruence].
Qed.

Lemma keeping_volume_log (e : Event) (st : St) : grows_keeping_volume st (log e st).
Proof. split; [apply grows_log|reflexivity]. Qed.

Lemma keeping_volume_snapshot (x : option Snapshot) (st : St) :
  grows_keeping_volume st {| self := with_snapshot x (self st); trace := trace st |}.
Proof. split; [apply grows_self|reflexivity]. Qed.

(** C6.  When no listed volume has the id, [create_snapshot] fails on the
    spot, with the [IndexError] of the empty selection, after the one listing
    (the specification calls this VolumeNotFound); when some do, the first of
    them is the volume that is held and that the snapshot is created from. *)
Theorem create_snapshot_volume_lookup
        (policy : RetryPolicy) (cloud : Cloud) (fuel : nat) (volume_id : string)
        (st : St) (d : Driver) (vols : list Volume) :
  driver (self st) = Some d ->
  list_volumes cloud (List.length (trace st)) = inr vols ->
  ((forall v, In v vols -> vol_id v <> volume_id) ->
   create_snapshot policy cloud fuel volume_id st
   = (Raise IndexError, log (OnDriver d ListVolumes) st))
  /\ (forall pre v post,
         vols = (pre ++ v :: post)%list ->
         vol_id v = volume_id ->
         (forall u, In u pre -> vol_id u <> volume_id) ->
         volume (self (snd (create_snapshot policy cloud fuel volume_id st))) = Some v
         /\ nth_error (trace (snd (create_snapshot policy cloud fuel volume_id st)))
                      (S (List.length (trace st)))
            = Some {| event := OnDriver d (CreateVolumeSnapshot
                                             v ("fedimg-snap-" ++ build_name (self st)));
                      held_volume := Some v;
                      held_snapshot := snapshot (self st);
                      held_image := image (self st) |}).
Proof.
  intros Hd Hl.
  assert (Hrun : create_snapshot policy cloud fuel volume_id st
                 = bind (find_volume volume_id vols)
                        (fun v =>
                           modify_self (with_volume (Some v)) ;;;
                           sn <- on_self_driver
                                   cloud
                                   (CreateVolumeSnapshot v ("fedimg-snap-" ++ build_name (self st)))
                                   (fun c n => create_volume_snapshot
                                                 c n v ("fedimg-snap-" ++ build_name (self st))) ;;
                           modify_self (with_snapshot (Some sn)) ;;;
                           _check_snapshot_exists policy cloud fuel (snap_id sn))%py
                        (log (OnDriver d ListVolumes) st)).
  { unfold create_snapshot. unfold bind at 1. cbn [get_self]. unfold bind at 1.
    rewrite (on_self_driver_eq cloud ListVolumes list_volumes st d Hd), Hl. reflexivity. }
  rewrite Hrun. clear Hrun. unfold find_volume. split.
  - intros Hno. rewrite (filter_no_volume _ _ Hno). reflexivity.
  - intros pre v post -> Hv Hpre. rewrite (filter_first_volume _ _ _ _ Hv Hpre).
    match goal with
    | |- context [snd (?m ?s)] =>
        pattern (m s); match goal with |- ?Q (m s) => change (wp m Q s) end
    end.
    wp_step. cbn [first_item ret fst snd]. wp_step. apply wp_bind.
    set (st2 := {| self := _; trace := _ |}).
    assert (Hd2 : driver (self st2) = Some d) by exact Hd.
    unfold wp at 1. rewrite (on_self_driver_eq cloud _ _ st2 d Hd2).
    set (st3 := log _ st2).
    assert (H3 : volume (self st3) = Some v
                 /\ nth_error (trace st3) (S (List.length (trace st)))
                    = Some {| event := OnDriver d (CreateVolumeSnapshot
                                                     v ("fedimg-snap-" ++ build_name (self st)));
                              held_volume := Some v;
                              held_snapshot := snapshot (self st);
                              held_image := image (self st) |}).
    { split; [reflexivity|]. subst st3 st2. cbn [trace log self].
      rewrite <- app_assoc. rewrite nth_error_app2 by lia.
      replace (S (List.length (trace st)) - List.length (trace st)) with 1 by lia.
      reflexivity. }
    destruct (create_volume_snapshot cloud _ v _) as [e|sn]; cbn [fst snd]; [exact H3|].
    wp_step. unfold wp.
    set (st4 := {| self := _; trace := _ |}).
    assert (K : grows_keeping_volume
                  st3 (snd (_check_snapshot_exists policy cloud fuel (snap_id sn) st4))).
    { apply keeping_volume_trans with st4; [apply keeping_volume_snapshot|].
      apply stable_check;
        [ exact keeping_volume_refl | exact keeping_volume_trans
        | exact keeping_volume_log | exact keeping_volume_snapshot ]. }
    destruct K as [Kg Kv], H3 as [H3v H3n]. split; [congruence|].
    now apply grows_nth_error with st3.
Qed.

Lemma create_snapshot_volume_lookup_witness :
  create_snapshot spec_policy Demo.calm 3 "vol-0fedcba9876543210"
                  (Demo.st_of (with_driver (Some Demo.drv0) Demo.job))
  = (Raise IndexError,
     log (OnDriver Demo.drv0 ListVolumes) (Demo.st_of (with_driver (Some Demo.drv0) Demo.job))).
Proof.
  refine (proj1 (create_snapshot_volume_lookup
                   spec_policy Demo.calm 3 "vol-0fedcba9876543210"
                   (Demo.st_of (with_driver (Some Demo.drv0) Demo.job))
                   Demo.drv0 [Demo.vol0] eq_refl eq_refl) _).
  intros v [<-|[]]. discriminate.
Defined.

(** ** The stages of a run *)

Section Run.
Import Stages.

Variable fedimg : Config.
Variable policy : RetryPolicy.
Variable cloud : Cloud.
Variable r : string.

Lemma path_log (st : St) (e : Event) (a b : Stage) :
  path r Fresh (trace st) a ->
  follows r a (entry_of (self st) e) b ->
  path r Fresh (trace (log e st)) b.
Proof. intros Hp Hf. now apply path_snoc with a. Qed.

(** What a retried method keeps: [I] before the first attempt, [J] after
    any attempt. *)
Lemma retry_inv {A} (inj : A -> PyVal) (attempt : M A) (I J : St -> Prop) :
  (forall st, I st -> J (snd (attempt st))) ->
  (forall st, J st -> J (snd (attempt st))) ->
  forall fuel st,
    I st ->
    (I (snd (retry policy inj fuel attempt st)) \/ J (snd (retry policy inj fuel attempt st)))
    /\ (forall a, fst (retry policy inj fuel attempt st) = Ok a ->
                  J (snd (retry policy inj fuel attempt st))).
Proof.
  intros HI HJ.
  assert (Hloop : forall fuel st, J st -> J (snd (retry policy inj fuel attempt st))).
  { induction fuel as [|f IH]; intros st H; simpl; [exact H|].
    specialize (HJ st H). destruct (attempt st) as [[a|e|] st']; simpl in *.
    - destruct (retry_if_result_false policy (inj a)); auto.
    - destruct (retry_on_exception policy e); auto.
    - assumption. }
  intros [|f] st H; simpl.
  - split; [now left|discriminate].
  - specialize (HI st H). destruct (attempt st) as [[a|e|] st']; simpl in *.
    + destruct (retry_if_result_false policy (inj a)); simpl; auto.
    + destruct (retry_on_exception policy e); simpl; auto.
    + auto.
Qed.

Lemma at_stage_log d v sn i a b e st :
  at_stage r d v sn i a st ->
  follows r a {| event := e; held_volume := v; held_snapshot := sn; held_image := i |} b ->
  at_stage r d v sn i b (log e st).
Proof.
  intros (Hd & Hv & Hs & Hi & Hp) Hf. repeat split; auto.
  apply path_log with a; [exact Hp|]. unfold entry_of. now rewrite Hv, Hs, Hi.
Qed.

Lemma at_stage_volume d v v' sn i a st :
  at_stage r d v sn i a st ->
  at_stage r d v' sn i a {| self := with_volume v' (self st); trace := trace st |}.
Proof. intros (Hd & Hv & Hs & Hi & Hp). repeat split; assumption. Qed.

Lemma at_stage_snapshot d v sn sn' i a st :
  at_stage r d v sn i a st ->
  at_stage r d v sn' i a {| self := with_snapshot sn' (self st); trace := trace st |}.
Proof. intros (Hd & Hv & Hs & Hi & Hp). repeat split; assumption. Qed.

Lemma poll_stage d (fuel : nat) (task_id : string) (st : St) :
  at_stage r d None None None Imported st ->
  (at_stage r d None None None Imported
            (snd (describe_conversion_tasks policy cloud fuel task_id r st))
   \/ at_stage r d None None None Polling
               (snd (describe_conversion_tasks policy cloud fuel task_id r st)))
  /\ (forall a, fst (describe_conversion_tasks policy cloud fuel task_id r st) = Ok a ->
                at_stage r d None None None Polling
                         (snd (describe_conversion_tasks policy cloud fuel task_id r st))).
Proof.
  unfold describe_conversion_tasks. apply retry_inv; intros s H;
    rewrite describe_attempt_state; eapply at_stage_log; eauto; constructor.
Qed.

Lemma wait_attempt_stage d v (snapshot_id : string) (st : St) :
  drv_region d = r ->
  (exists sn, at_stage r d (Some v) (Some sn) None Waiting st) ->
  exists sn, at_stage r d (Some v) (Some sn) None Waiting
                      (snd (_check_snapshot_exists_attempt cloud snapshot_id st)).
Proof.
  intros Hr (sn & H). unfold _check_snapshot_exists_attempt.
  unfold bind at 1. cbn [get_self]. pose proof H as (Hd & Hv & Hs & Hi & Hp).
  rewrite Hs. unfold bind at 1. cbn [deref ret].
  destruct (negb _); [|exists sn; exact H].
  unfold bind at 1. rewrite (on_self_driver_eq cloud _ _ st d Hd).
  assert (H1 : at_stage r d (Some v) (Some sn) None Waiting (log (OnDriver d ListSnapshots) st)).
  { eapply at_stage_log; [exact H|]. now constructor. }
  destruct (list_snapshots cloud _) as [e|l]; [exists sn; exact H1|].
  unfold bind at 1. destruct (filter _ l) as [|sn' l']; cbn [first_item raise ret].
  - exists sn. exact H1.
  - unfold bind at 1. cbn [modify_self ret snd]. exists sn'.
    destruct H1 as (Hd1 & Hv1 & Hs1 & Hi1 & Hp1). repeat split; assumption.
Qed.


Lemma wait_stage d v (fuel : nat) (snapshot_id : string) (st : St) :
  drv_region d = r ->
  (exists sn, at_stage r d (Some v) (Some sn) None Waiting st) ->
  exists sn, at_stage r d (Some v) (Some sn) None Waiting
                      (snd (_check_snapshot_exists policy cloud fuel snapshot_id st)).
Proof.
  intros Hr H. unfold _check_snapshot_exists.
  destruct (retry_inv VBool (_check_snapshot_exists_attempt cloud snapshot_id)
                      (fun st => exists sn, at_stage r d (Some v) (Some sn) None Waiting st)
                      (fun st => exists sn, at_stage r d (Some v) (Some sn) None Waiting st)
                      (fun st => wait_attempt_stage d v snapshot_id st Hr)
                      (fun st => wait_attempt_stage d v snapshot_id st Hr)
                      fuel st H) as [[K|K] _]; exact K.
Qed.

(** The loop of [register_image]: every attempt is made with the snapshot
    held and no image registered yet; it ends with an image held. *)
Lemma register_stage d sn (fuel cnt : nat) (name root : string)
      (mapping : list BlockDevice) (st : St) :
  drv_region d = r ->
  at_stage r d None (Some sn) None Destroyed st
  \/ at_stage r d None (Some sn) None Registering st ->
  (exists a, path r Fresh (trace (snd (register_image_loop cloud fuel cnt name root mapping st))) a)
  /\ (fst (register_image_loop cloud fuel cnt name root mapping st) = Ok tt ->
      exists i, at_stage r d None (Some sn) (Some i) Registering
                         (snd (register_image_loop cloud fuel cnt name root mapping st))).
Proof.
  intros Hr. revert cnt name st.
  induction fuel as [|f IH]; intros cnt name st H; simpl.
  - split; [|discriminate]. destruct H as [H|H]; eexists; apply H.
  - set (name' := if (0 <? cnt)%nat then Re.sub_digit name else name).
    assert (Hd : driver (self st) = Some d) by (destruct H as [H|H]; apply H).
    rewrite (on_self_driver_eq cloud _ _ st d Hd).
    set (e := OnDriver d _).
    assert (H1 : at_stage r d None (Some sn) None Registering (log e st)).
    { destruct H as [H|H]; (eapply at_stage_log; [exact H|]); subst e; now constructor. }
    destruct (ex_register_image cloud _ name') as [x|i].
    + destruct (PyStr.contains _ _).
      * apply IH. now right.
      * simpl. split; [|discriminate]. eexists; apply H1.
    + simpl. split.
      * eexists; apply H1.
      * intros _. exists i. destruct H1 as (Hd1 & Hv1 & Hs1 & Hi1 & Hp1).
        repeat split; assumption.
Qed.

End Run.

Section Upload.
Import Stages.

Variable fedimg : Config.
Variable policy : RetryPolicy.
Variable cloud : Cloud.

(** The run stops at the state that [H] describes. *)
Ltac stops_at H :=
  cbn [fst snd]; eexists; split; [apply H|discriminate].

(** A run of [upload] goes through the stages in their order. *)
Lemma upload_stages (fuel : nat) (s : EC2Service) :
  volume s = None -> snapshot s = None -> image s = None ->
  exists a,
    path (region s) Fresh (trace (snd (run_upload fedimg policy cloud fuel s))) a
    /\ (fst (run_upload fedimg policy cloud fuel s) = Ok tt ->
        a = Done /\ image (self (snd (run_upload fedimg policy cloud fuel s))) <> None).
Proof.
  intros Hv Hs Hi. unfold run_upload.
  change (wp (upload fedimg policy cloud fuel)
             (fun x => exists a, path (region s) Fresh (trace (snd x)) a
                                 /\ (fst x = Ok tt ->
                                     a = Done /\ image (self (snd x)) <> None))
             {| self := s; trace := [] |}).
  unfold upload. wp_step. wp_step. wp_step. wp_step.
  cbn [self trace].
  set (d := {| drv_region := region s; drv_access_id := _; drv_secret_key := _ |}).
  set (st1 := {| self := _; trace := _ |}).
  assert (H1 : at_stage (region s) d None None None Announced st1).
  { repeat split; try assumption. subst st1. cbn [trace log self].
    apply (path_snoc _ Fresh [] Fresh); [constructor|].
    unfold entry_of. cbn. rewrite Hv, Hs, Hi. constructor. }
  clearbody st1.
  (* the availability zone *)
  apply wp_bind. unfold get_availability_zone. apply wp_bind.
  assert (H2 : at_stage (region s) d None None None Zoned
                        (log (OnDriver d ListAvailabilityZones) st1)).
  { eapply at_stage_log; [exact H1|]. now constructor. }
  apply wp_on_self_driver with d; [apply H1|intros e; stops_at H2|intros zs].
  cbn [fst snd]. unfold wp at 1. destruct zs as [|z zs]; cbn [first_item raise ret fst snd];
    [stops_at H2|].
  set (st2 := log _ st1) in *. clearbody st2. clear H1 st1.
  (* the import *)
  apply wp_bind. unfold import_image_volume. wp_step. unfold wp at 1.
  cbn [system fst snd].
  set (st3 := log _ st2).
  assert (H3 : at_stage (region s) d None None None Imported st3).
  { eapply at_stage_log; [exact H2|]. constructor. }
  set (task_id := match_regex_pattern _). clearbody task_id st3. clear H2 st2.
  (* the conversion *)
  apply wp_bind. unfold wp at 1.
  destruct (poll_stage policy cloud (region s) d fuel task_id st3 H3) as [Hor Hok].
  destruct (describe_conversion_tasks _ _ _ _ _ st3) as [[volume_id|e|] st4];
    cbn [fst snd] in *;
    [|destruct Hor as [K|K]; stops_at K..].
  specialize (Hok volume_id eq_refl). clear Hor H3 st3. rename Hok into H4.
  (* the snapshot *)
  apply wp_bind. unfold create_snapshot. wp_step.
  set (name := "fedimg-snap-" ++ _). clearbody name. apply wp_bind.
  assert (H5 : at_stage (region s) d None None None Found (log (OnDriver d ListVolumes) st4)).
  { eapply at_stage_log; [exact H4|]. now constructor. }
  apply wp_on_self_driver with d; [apply H4|intros e; stops_at H5|intros vols].
  cbn [fst snd]. set (st5 := log _ st4) in *. clearbody st5. clear H4 st4.
  apply wp_bind. unfold wp at 1, find_volume.
  destruct (filter _ vols) as [|v l]; cbn [first_item raise ret fst snd]; [stops_at H5|].
  wp_step. apply at_stage_volume with (v' := Some v) in H5.
  set (st6 := {| self := _; trace := _ |}) in *. clearbody st6. clear st5.
  apply wp_bind.
  assert (H7 : at_stage (region s) d (Some v) None None Waiting
                        (log (OnDriver d (CreateVolumeSnapshot v name)) st6)).
  { eapply at_stage_log; [exact H5|]. now constructor. }
  apply wp_on_self_driver with d; [apply H5|intros e; stops_at H7|intros sn0].
  cbn [fst snd]. set (st7 := log _ st6) in *. clearbody st7. clear H5 st6.
  wp_step. apply at_stage_snapshot with (sn' := Some sn0) in H7.
  set (st8 := {| self := _; trace := _ |}) in *. clearbody st8. clear st7.
  unfold wp at 1.
  destruct (wait_stage policy cloud (region s) d v fuel (snap_id sn0) st8 eq_refl
                       (ex_intro _ sn0 H7)) as (sn & H9).
  destruct (_check_snapshot_exists _ _ _ _ st8) as [[b|e|] st9];
    cbn [fst snd] in *; [|stops_at H9..].
  clear H7 st8 sn0.
  (* the snapshot is made public, the volume is destroyed *)
  wp_step. pose proof H9 as (Hd9 & Hv9 & Hs9 & Hi9 & Hp9).
  rewrite Hs9, Hv9. wp_step. cbn [deref ret fst snd]. apply wp_bind.
  assert (H10 : at_stage (region s) d (Some v) (Some sn) None Public
                         (log (OnDriver d (ModifySnapshotAttribute
                                             sn "CreateVolumePermission.Add.1.Group" "all"))
                              st9)).
  { eapply at_stage_log; [exact H9|]. now constructor. }
  apply wp_on_self_driver with d; [apply H9|intros e; stops_at H10|intros []].
  cbn [fst snd]. set (st10 := log _ st9) in *. clearbody st10.
  clear H9 Hd9 Hv9 Hs9 Hi9 Hp9 st9.
  wp_step. cbn [deref ret fst snd]. apply wp_bind.
  assert (H11 : at_stage (region s) d (Some v) (Some sn) None Destroyed
                         (log (OnDriver d (DestroyVolume v)) st10)).
  { eapply at_stage_log; [exact H10|]. now constructor. }
  apply wp_on_self_driver with d; [apply H10|intros e; stops_at H11|intros []].
  cbn [fst snd]. set (st11 := log _ st10) in *. clearbody st11. clear H10 st10.
  wp_step. apply at_stage_volume with (v' := None) in H11.
  set (st12 := {| self := _; trace := _ |}) in *. clearbody st12. clear st11.
  (* the registration *)
  wp_step. pose proof H11 as (Hd12 & Hv12 & Hs12 & Hi12 & Hp12).
  rewrite Hs12. wp_step. cbn [deref ret fst snd].
  apply wp_bind. unfold wp at 1, register_image.
  set (mapping := [_]).
  destruct (register_stage cloud (region s) d sn fuel 0
                           (fst (image_name_and_root s (region s)))
                           (snd (image_name_and_root s (region s)))
                           mapping st12 eq_refl (or_introl H11)) as [[a Ha] Hok].
  destruct (register_image_loop _ _ _ _ _ _ st12) as [[[]|e|] st13];
    cbn [fst snd] in *;
    [|eexists; split; [exact Ha|discriminate]..].
  destruct (Hok eq_refl) as (i & H13).
  clear Ha Hok a H11 Hd12 Hv12 Hs12 Hi12 Hp12 st12.
  (* the announcement *)
  wp_step. pose proof H13 as (Hd13 & Hv13 & Hs13 & Hi13 & Hp13).
  rewrite Hi13. wp_step. cbn [deref ret fst snd]. unfold wp. cbn [message fst snd].
  exists Done. split; [|intros _; split; [reflexivity|cbn; congruence]].
  apply path_log with Registering; [exact Hp13|].
  unfold entry_of. rewrite Hv13, Hs13, Hi13. constructor. cbn. auto.
Qed.

End Upload.

(** ** What the stages say of a trace *)

Section Paths.
Import Stages.

Variable r : string.

Lemma path_Forall (P : Entry -> Prop) :
  (forall a e b, follows r a e b -> P e) ->
  forall a t b, path r a t b -> Forall P t.
Proof.
  intros HP a t b H. induction H as [a|a t b e c Hp IH Hf]; [constructor|].
  apply Forall_app. split; [exact IH|]. constructor; [|constructor]. now apply HP with b c.
Qed.

Lemma follows_both_held a e b :
  follows r a e b ->
  held_volume e <> None -> held_snapshot e <> None ->
  between_snapshot_and_destruction (event e).
Proof. intros H; destruct H; cbn; intros Hv Hs; congruence || exact I. Qed.

Lemma follows_registration a e b :
  follows r a e b ->
  registration (event e) -> held_volume e = None /\ held_snapshot e <> None.
Proof.
  intros H; destruct H; cbn; intros Hr; try contradiction; try discriminate;
    split; congruence.
Qed.

Lemma follows_in_region a e b : follows r a e b -> in_region r (event e).
Proof.
  intros H; destruct H; cbn; auto.
  - left. now exists location, image_name, image_format, bucket, availability_zone.
  - right. now exists task_id.
  - right. now exists task_id.
Qed.

Lemma follows_unregistered a e b :
  follows r a e b ->
  match event e with
  | OnDriver _ (RegisterImage _ _ _ _ _ _) => held_image e = None
  | _ => True
  end.
Proof. intros H; destruct H; cbn; auto. Qed.

Lemma registered_names_app (t u : list Event) :
  registered_names (t ++ u) = (registered_names t ++ registered_names u)%list.
Proof.
  induction t as [|e t IH]; simpl; [reflexivity|].
  destruct e as [d [ | | | | | | | | ] | | ]; simpl; now rewrite ?IH.
Qed.

Lemma path_registered t b :
  path r Fresh t b ->
  b = Registering \/ b = Done -> registered_names (map event t) <> [].
Proof.
  intros H. remember Fresh as a eqn:Ea.
  induction H as [a|a t b e c Hp IH Hf]; intros Hb.
  - subst a. destruct Hb; discriminate.
  - rewrite map_app, registered_names_app.
    destruct Hf; try (destruct Hb; discriminate); cbn.
    + intros E. now apply app_eq_nil in E as [_ E].
    + intros E. now apply app_eq_nil in E as [_ E].
    + rewrite app_nil_r. apply IH; auto.
Qed.

End Paths.

(** ** The volume and the snapshot *)

(** C3, as the code has it: a run goes through the stages in their order, so
    that once the snapshot is confirmed complete it is first made public and
    then the volume is destroyed and its reference cleared, before the image
    is registered.  Both references are held while the snapshot is awaited,
    made public and the volume destroyed, and at no other point; every
    registration attempt and the announcement of the image are issued with
    the snapshot held and no volume held. *)
Theorem upload_volume_and_snapshot
        (fedimg : Config) (get_file_arch : string -> string) (policy : RetryPolicy)
        (cloud : Cloud) (fuel : nat) (url dir virt vol : string) :
  let s := __init__ fedimg get_file_arch url dir virt vol in
  let t := trace (snd (run_upload fedimg policy cloud fuel s)) in
  (exists a, Stages.path (region s) Stages.Fresh t a)
  /\ Forall (fun e => held_volume e <> None -> held_snapshot e <> None ->
                      Stages.between_snapshot_and_destruction (event e)) t
  /\ Forall (fun e => Stages.registration (event e) ->
                      held_volume e = None /\ held_snapshot e <> None) t.
Proof.
  intros s t.
  destruct (upload_stages fedimg policy cloud fuel s eq_refl eq_refl eq_refl) as (a & Hp & _).
  fold t in Hp. split; [now exists a|]. split.
  - apply (path_Forall (region s)) with Stages.Fresh a; [|exact Hp].
    apply follows_both_held.
  - apply (path_Forall (region s)) with Stages.Fresh a; [|exact Hp].
    apply follows_registration.
Qed.

(** C3 fails as it is written: in an undisturbed run the completed snapshot
    is made public while the volume is still held, so that both references
    are held at that step, and at the destruction of the volume. *)
Lemma upload_holds_both_when_publishing :
  nth_error (trace (snd (run_upload Demo.cfg spec_policy Demo.calm 3 Demo.job))) 6
  = Some {| event := OnDriver Demo.drv0
                              (ModifySnapshotAttribute
                                 Demo.snap0 "CreateVolumePermission.Add.1.Group" "all");
            held_volume := Some Demo.vol0;
            held_snapshot := Some Demo.snap0;
            held_image := None |}
  /\ snap_state Demo.snap0 = "completed"
  /\ ~ Forall (fun e => held_volume e = None \/ held_snapshot e = None)
              (trace (snd (run_upload Demo.cfg spec_policy Demo.calm 3 Demo.job))).
Proof.
  assert (H : nth_error (trace (snd (run_upload Demo.cfg spec_policy Demo.calm 3 Demo.job))) 6
              = Some {| event := OnDriver Demo.drv0
                                          (ModifySnapshotAttribute
                                             Demo.snap0 "CreateVolumePermission.Add.1.Group"
                                             "all");
                        held_volume := Some Demo.vol0;
                        held_snapshot := Some Demo.snap0;
                        held_image := None |}) by (vm_compute; reflexivity).
  split; [exact H|]. split; [reflexivity|].
  intros F. rewrite Forall_forall in F.
  destruct (F _ (nth_error_In _ _ H)) as [E|E]; discriminate E.
Qed.

(** ** The region *)

(** C10 fails as it is written: when the first name is taken the job makes
    two registration attempts, not one. *)
Lemma upload_registers_twice_on_a_taken_name :
  List.length
    (registered_names
       (map event (trace (snd (run_upload Demo.cfg spec_policy
                                          (Demo.provider Demo.import_ok 8) 3 Demo.job)))))
  = 2
  /\ List.length
       (registered_names
          (map event (trace (snd (run_upload Demo.cfg spec_policy
                                             (Demo.provider Demo.import_ok 8) 3 Demo.job)))))
     <> 1.
Proof. split; vm_compute; discriminate || reflexivity. Qed.

(** ** The job stays the same *)

Lemma same_job_refl (st : St) : same_job st st.
Proof. reflexivity. Qed.

Lemma same_job_trans (a b c : St) : same_job a b -> same_job b c -> same_job a c.
Proof. unfold same_job. congruence. Qed.

Lemma same_job_log (e : Event) (st : St) : same_job st (log e st).
Proof. reflexivity. Qed.

Lemma same_job_snapshot (x : option Snapshot) (st : St) :
  same_job st {| self := with_snapshot x (self st); trace := trace st |}.
Proof. reflexivity. Qed.

Section SameJob.

Variable fedimg : Config.
Variable policy : RetryPolicy.
Variable cloud : Cloud.

Let bind_job {A B} (m : M A) (k : A -> M B) :=
  stable_bind same_job same_job_trans m k.

Lemma same_job_on_self_driver {A} (c : DriverCall) (answer : Cloud -> nat -> Exc + A) :
  stable same_job (on_self_driver cloud c answer).
Proof.
  apply stable_on_self_driver;
    [exact same_job_refl|exact same_job_trans|exact same_job_log].
Qed.

Lemma same_job_modify (f : EC2Service -> EC2Service) :
  (forall s, job_of (f s) = job_of s) -> stable same_job (modify_self f).
Proof. intros H st. apply H. Qed.

Lemma same_job_create_snapshot (fuel : nat) (volume_id : string) :
  stable same_job (create_snapshot policy cloud fuel volume_id).
Proof.
  unfold create_snapshot, find_volume.
  apply bind_job; [intros st; reflexivity|intros s].
  apply bind_job; [apply same_job_on_self_driver|intros vols].
  apply bind_job; [apply stable_first_item; exact same_job_refl|intros v].
  apply bind_job; [intros st; reflexivity|intros _].
  apply bind_job; [apply same_job_on_self_driver|intros sn].
  apply bind_job; [intros st; reflexivity|intros _].
  apply stable_check;
    [exact same_job_refl|exact same_job_trans|exact same_job_log|exact same_job_snapshot].
Qed.

Lemma same_job_register_image_loop (fuel cnt : nat) (name root : string)
      (mapping : list BlockDevice) :
  stable same_job (register_image_loop cloud fuel cnt name root mapping).
Proof.
  revert cnt name. induction fuel as [|f IH]; intros cnt name st; simpl; [reflexivity|].
  set (name' := if (0 <? cnt)%nat then Re.sub_digit name else name).
  pose proof (same_job_on_self_driver
                (RegisterImage name' (image_desc (self st)) root mapping
                               (virt_type (self st)) (image_arch (self st)))
                (fun c n => ex_register_image c n name') st) as H.
  destruct (on_self_driver _ _ _ st) as [[i|e|] st']; simpl in *.
  - exact H.
  - destruct (PyStr.contains _ _); [|assumption].
    apply same_job_trans with st'; [assumption|apply IH].
  - assumption.
Qed.

(** A run of [upload] ends on the object of the job it was started on. *)
Lemma same_job_upload (fuel : nat) : stable same_job (upload fedimg policy cloud fuel).
Proof.
  unfold upload, get_availability_zone, import_image_volume, register_image.
  repeat (cbv zeta;
          lazymatch goal with
          | |- stable _ (bind _ _) => apply bind_job; [|intros ?]
          | |- stable _ (on_self_driver _ _ _) => apply same_job_on_self_driver
          | |- stable _ (create_snapshot _ _ _ _) => apply same_job_create_snapshot
          | |- stable _ (register_image_loop _ _ _ _ _ _) =>
              apply same_job_register_image_loop
          | |- stable _ (describe_conversion_tasks _ _ _ _ _) =>
              apply stable_describe;
              [exact same_job_refl|exact same_job_trans|exact same_job_log]
          | |- stable _ (first_item _) => apply stable_first_item; exact same_job_refl
          | |- stable _ (deref _) => apply stable_deref; exact same_job_refl
          | |- stable _ get_self => apply stable_get_self; exact same_job_refl
          | |- stable _ (message _ _ _ _ _) => apply stable_message; exact same_job_log
          | |- stable _ (system _ _) => apply stable_system; exact same_job_log
          | |- stable _ (modify_self _) => apply same_job_modify; intros ?; reflexivity
          end).
Qed.

End SameJob.

(** ** The units of work of a batch *)

Section Units.

Variable fedimg : Config.
Variable get_file_arch : string -> string.
Variable policy : RetryPolicy.
Variable virt_types_from_url : string -> list string.
Variable tmpdir : string.

Lemma unit_of_same_job (st st' : St) :
  same_job st st' -> unit_of_work (self st') = unit_of_work (self st).
Proof.
  unfold same_job, unit_of_work. intros H.
  change (raw_url (self st')) with (raw_url (job_of (self st'))).
  change (virt_type (self st')) with (virt_type (job_of (self st'))).
  change (vol_type (self st')) with (vol_type (job_of (self st'))).
  now rewrite H.
Qed.

Lemma services_of_url_units (url : string) :
  map unit_of_work (services_of_url fedimg get_file_arch virt_types_from_url tmpdir url)
  = flat_map (fun vt => [(url, vt, "standard"); (url, vt, "gp2")]) (virt_types_from_url url).
Proof.
  unfold services_of_url.
  induction (virt_types_from_url url) as [|vt l IH]; simpl; [reflexivity|].
  now rewrite IH.
Qed.

Lemma services_units (urls : list string) :
  map unit_of_work (services fedimg get_file_arch virt_types_from_url tmpdir urls)
  = flat_map (fun url => flat_map (fun vt => [(url, vt, "standard"); (url, vt, "gp2")])
                                  (virt_types_from_url url))
             urls.
Proof.
  unfold services. induction urls as [|u l IH]; simpl; [reflexivity|].
  now rewrite map_app, IH, services_of_url_units.
Qed.

Lemma map_snd_combine_seq {A} (l : list A) (k : nat) :
  map snd (combine (seq k (List.length l)) l) = l.
Proof.
  revert k. induction l as [|x l IH]; intros k; simpl; [reflexivity|]. now rewrite IH.
Qed.

Lemma pool_map_units (clouds : nat -> Cloud) (fuel : nat) (l : list EC2Service) :
  map (fun x => unit_of_work (self (snd x))) (pool_map fedimg policy clouds fuel l)
  = map unit_of_work l.
Proof.
  transitivity (map unit_of_work (map snd (combine (seq 0 (List.length l)) l)));
    [|now rewrite map_snd_combine_seq].
  unfold pool_map. rewrite !map_map.
  apply map_ext. intros [k s]. cbn [fst snd]. unfold run_upload.
  apply (unit_of_same_job {| self := s; trace := [] |}). apply same_job_upload.
Qed.

(** C9, as the code has it: the dispatcher runs the orchestrator once for
    every (url, virtualization type, volume type) triple, each virtualization
    type of each URL on both volume types, [standard] and then [gp2], so that
    three URLs of two virtualization types each give twelve runs. *)
Theorem batch_runs_both_volume_types
        (clouds : nat -> Cloud) (fuel : nat) (urls : list string) :
  List.length urls = 3 ->
  (forall u, In u urls -> List.length (virt_types_from_url u) = 2) ->
  List.length (runs (uploader_upload fedimg get_file_arch policy virt_types_from_url
                                     tmpdir clouds fuel urls)) = 12
  /\ map (fun x => unit_of_work (self (snd x)))
         (runs (uploader_upload fedimg get_file_arch policy virt_types_from_url
                                tmpdir clouds fuel urls))
     = flat_map (fun url => flat_map (fun vt => [(url, vt, "standard"); (url, vt, "gp2")])
                                     (virt_types_from_url url))
                urls.
Proof.
  intros Hn Hv. split.
  - simpl. rewrite pool_map_length, services_length.
    destruct urls as [|a [|b [|c [|d l]]]]; try discriminate. simpl.
    rewrite !Hv; simpl; auto.
  - cbn [runs uploader_upload]. now rewrite pool_map_units, services_units.
Qed.

End Units.

Lemma batch_runs_both_volume_types_witness :
  List.length (runs (uploader_upload Demo.cfg Demo.arch spec_policy Demo.hvm_pv "/tmp/d"
                                     (fun _ => Demo.calm) 3 ["a"; "b"; "c"])) = 12
  /\ map (fun x => unit_of_work (self (snd x)))
         (runs (uploader_upload Demo.cfg Demo.arch spec_policy Demo.hvm_pv "/tmp/d"
                                (fun _ => Demo.calm) 3 ["a"; "b"; "c"]))
     = flat_map (fun url => flat_map (fun vt => [(url, vt, "standard"); (url, vt, "gp2")])
                                     (Demo.hvm_pv url))
                ["a"; "b"; "c"].
Proof.
  apply batch_runs_both_volume_types.
  - reflexivity.
  - intros u _. reflexivity.
Defined.

(** ** The registrations of a trace *)

Section Registrations.
Import Stages.

Variable cloud : Cloud.

Lemma registrations_app (t u : list Event) :
  registrations (t ++ u) = (registrations t ++ registrations u)%list.
Proof.
  induction t as [|e t IH]; simpl; [reflexivity|].
  destruct e as [d [ | | | | | | | | ] | | ]; simpl; now rewrite ?IH.
Qed.

Lemma duplicate_refusals_app (t u : list Event) (k : nat) :
  duplicate_refusals cloud k (t ++ u)
  = duplicate_refusals cloud k t + duplicate_refusals cloud (k + List.length t) u.
Proof.
  revert k. induction t as [|e t IH]; intros k; simpl.
  - now rewrite Nat.add_0_r.
  - rewrite IH. replace (S k + List.length t) with (k + S (List.length t)) by lia. lia.
Qed.

Lemma registered_names_length (t : list Event) :
  List.length (registered_names t) = List.length (registrations t).
Proof.
  induction t as [|e t IH]; simpl; [reflexivity|].
  destruct e as [d [ | | | | | | | | ] | | ]; simpl; now rewrite ?IH.
Qed.

Lemma without_registration (t : list Entry) :
  Forall (fun e => Calls.is_registration (event e) = false) t ->
  registrations (map event t) = []
  /\ forall k, duplicate_refusals cloud k (map event t) = 0.
Proof.
  induction 1 as [|e t He _ [IHr IHd]]; simpl; [auto|].
  destruct (event e) as [d [ | | | | | | | | ] | | ]; simpl in *;
    try discriminate; split; auto; intros k; now rewrite IHd.
Qed.

Lemma follows_rank (r : string) (a b : Stage) (e : Entry) :
  follows r a e b ->
  Calls.rank a <= Calls.rank b
  /\ (Calls.rank b <= 8 -> Calls.is_registration (event e) = false).
Proof. intros H; destruct H; cbn; split; try lia; auto; intros; lia. Qed.

Lemma path_without_registration (r : string) (t : list Entry) (a : Stage) :
  path r Fresh t a -> Calls.rank a <= 8 ->
  Forall (fun e => Calls.is_registration (event e) = false) t.
Proof.
  intros H. remember Fresh as a0 eqn:E.
  induction H as [a|a t b e c Hp IH Hf]; intros Hr; [constructor|].
  destruct (follows_rank r b c e Hf) as [Hle He].
  apply Forall_app. split; [apply IH; [exact E|lia]|]. constructor; [auto|constructor].
Qed.

Lemma renamed_succ (k : nat) (name : string) :
  renamed (S k) name = renamed k (Re.sub_digit name).
Proof. unfold renamed. apply Nat.iter_succ_r. Qed.

Lemma attempts_succ (s : EC2Service) (d : Driver) (name root : string)
      (mapping : list BlockDevice) (n : nat) :
  attempts s d name root mapping (S n)
  = registration_of s d name root mapping
    :: attempts s d (Re.sub_digit name) root mapping n.
Proof.
  unfold attempts. cbn [seq map]. f_equal.
  rewrite <- seq_shift, map_map. apply map_ext. intros k. now rewrite renamed_succ.
Qed.

Lemma attempts_registrations (s : EC2Service) (d : Driver) (name root : string)
      (mapping : list BlockDevice) (n : nat) :
  registrations (attempts s d name root mapping n)
  = map (fun k => (renamed k name, root, mapping)) (seq 0 n).
Proof.
  revert name. induction n as [|n IH]; intros name; [reflexivity|].
  rewrite attempts_succ. cbn [registration_of registrations]. rewrite IH.
  cbn [seq map]. f_equal.
  rewrite <- seq_shift, map_map. apply map_ext. intros k. now rewrite renamed_succ.
Qed.

Lemma map_event_entry_of (s : EC2Service) (l : list Event) :
  map event (map (entry_of s) l) = l.
Proof. induction l as [|e l IH]; simpl; [reflexivity|now rewrite IH]. Qed.

(** The loop of [register_image]: its calls, how many of them were refused
    as duplicates, and the image it ends with. *)
Lemma register_image_loop_attempts (root : string) (mapping : list BlockDevice)
      (fuel cnt : nat) (name : string) (st : St) (d : Driver) :
  driver (self st) = Some d ->
  let first := if (0 <? cnt)%nat then Re.sub_digit name else name in
  let x := register_image_loop cloud fuel cnt name root mapping st in
  exists n,
    trace (snd x)
    = (trace st ++ map (entry_of (self st)) (attempts (self st) d first root mapping n))%list
    /\ n <= 1 + duplicate_refusals cloud (List.length (trace st))
                                   (attempts (self st) d first root mapping n)
    /\ (fst x = Ok tt ->
        n = 1 + duplicate_refusals cloud (List.length (trace st))
                                   (attempts (self st) d first root mapping n)
        /\ exists i, self (snd x) = with_image (Some i) (self st)).
Proof.
  revert cnt name st. induction fuel as [|f IH]; intros cnt name st Hd; cbn zeta.
  - exists 0. cbn. rewrite app_nil_r. repeat split; try lia; discriminate.
  - cbn [register_image_loop].
    set (first := if (0 <? cnt)%nat then Re.sub_digit name else name).
    rewrite (on_self_driver_eq cloud _ _ st d Hd).
    fold (registration_of (self st) d first root mapping).
    destruct (ex_register_image cloud _ first) as [e|i] eqn:Hans.
    + destruct (PyStr.contains _ _) eqn:Hdup.
      * destruct (IH (cnt + 1) first (log (registration_of (self st) d first root mapping) st) Hd)
          as (n & Ht & Hle & Hok).
        replace (0 <? cnt + 1)%nat with true in Ht, Hle, Hok
          by (symmetry; apply Nat.ltb_lt; lia).
        cbn [log self trace] in Ht, Hle, Hok.
        rewrite length_app in Hle, Hok. cbn [List.length] in Hle, Hok.
        replace (List.length (trace st) + 1) with (S (List.length (trace st)))
          in Hle, Hok by lia.
        exists (S n). rewrite attempts_succ. cbn [map duplicate_refusals registration_of].
        fold (registration_of (self st) d first root mapping).
        rewrite Hans, Hdup. split; [|split].
        -- rewrite Ht, <- app_assoc. reflexivity.
        -- lia.
        -- intros E. destruct (Hok E) as [Hn Hi]. split; [lia|exact Hi].
      * exists 1. rewrite attempts_succ.
        cbn [attempts seq map duplicate_refusals registration_of].
        rewrite Hans, Hdup. cbn. repeat split; try lia; discriminate.
    + exists 1. rewrite attempts_succ.
      cbn [attempts seq map duplicate_refusals registration_of].
      rewrite Hans. cbn. repeat split; try lia. now exists i.
Qed.

End Registrations.

(** The run stops at the state that [H] describes, before the registration. *)
Ltac stops H :=
  cbn [fst snd];
  match goal with
  | Hexit : forall (x : Res unit) st d v sn a, _ |- _ =>
      eapply Hexit; [discriminate|exact H|cbn; lia]
  end.

(** ** The run up to the registration *)

Section Registering.
Import Stages.

Variable fedimg : Config.
Variable policy : RetryPolicy.
Variable cloud : Cloud.

(** A run of [upload] either stops before the registration, at one of the
    stages up to the destruction of the volume, or it comes to the
    registration with the snapshot held. *)
Lemma upload_reaches_registration (Q : Res unit * St -> Prop) (fuel : nat) (s : EC2Service) :
  volume s = None -> snapshot s = None -> image s = None ->
  (forall (x : Res unit) st d v sn a,
      x <> Ok tt -> at_stage (region s) d v sn None a st -> Calls.rank a <= 8 -> Q (x, st)) ->
  (forall st d sn,
      drv_region d = region s ->
      at_stage (region s) d None (Some sn) None Destroyed st ->
      wp (register_image cloud fuel
                         (fst (image_name_and_root s (region s)))
                         (snd (image_name_and_root s (region s)))
                         (mapping_of fedimg s (snd (image_name_and_root s (region s))) sn) ;;;
          s3 <- get_self ;;
          i <- deref (image s3) ;;
          message "image.create" (raw_url s) ("EC2 (" ++ region s ++ ")") "created"
                  [("id", img_id i); ("virt_type", virt_type s);
                   ("vol_type", vol_type s); ("region", region s)])
         Q st) ->
  wp (upload fedimg policy cloud fuel) Q {| self := s; trace := [] |}.
Proof.
  intros Hv Hs Hi Hexit Hreg.
  unfold upload. wp_step. wp_step. wp_step. wp_step.
  cbn [self trace].
  set (d := {| drv_region := region s; drv_access_id := _; drv_secret_key := _ |}).
  set (st1 := {| self := _; trace := _ |}).
  assert (H1 : at_stage (region s) d None None None Announced st1).
  { repeat split; try assumption. subst st1. cbn [trace log self].
    apply (path_snoc _ Fresh [] Fresh); [constructor|].
    unfold entry_of. cbn. rewrite Hv, Hs, Hi. constructor. }
  clearbody st1.
  (* the availability zone *)
  apply wp_bind. unfold get_availability_zone. apply wp_bind.
  assert (H2 : at_stage (region s) d None None None Zoned
                        (log (OnDriver d ListAvailabilityZones) st1)).
  { eapply at_stage_log; [exact H1|]. now constructor. }
  apply wp_on_self_driver with d; [apply H1|intros e; stops H2|intros zs].
  cbn [fst snd]. unfold wp at 1. destruct zs as [|z zs]; cbn [first_item raise ret fst snd];
    [stops H2|].
  set (st2 := log _ st1) in *. clearbody st2. clear H1 st1.
  (* the import *)
  apply wp_bind. unfold import_image_volume. wp_step. unfold wp at 1.
  cbn [system fst snd].
  set (st3 := log _ st2).
  assert (H3 : at_stage (region s) d None None None Imported st3).
  { eapply at_stage_log; [exact H2|]. constructor. }
  set (task_id := match_regex_pattern _). clearbody task_id st3. clear H2 st2.
  (* the conversion *)
  apply wp_bind. unfold wp at 1.
  destruct (poll_stage policy cloud (region s) d fuel task_id st3 H3) as [Hor Hok].
  destruct (describe_conversion_tasks _ _ _ _ _ st3) as [[volume_id|e|] st4];
    cbn [fst snd] in *;
    [|destruct Hor as [K|K]; stops K..].
  specialize (Hok volume_id eq_refl). clear Hor H3 st3. rename Hok into H4.
  (* the snapshot *)
  apply wp_bind. unfold create_snapshot. wp_step.
  set (name := "fedimg-snap-" ++ _). clearbody name. apply wp_bind.
  assert (H5 : at_stage (region s) d None None None Found (log (OnDriver d ListVolumes) st4)).
  { eapply at_stage_log; [exact H4|]. now constructor. }
  apply wp_on_self_driver with d; [apply H4|intros e; stops H5|intros vols].
  cbn [fst snd]. set (st5 := log _ st4) in *. clearbody st5. clear H4 st4.
  apply wp_bind. unfold wp at 1, find_volume.
  destruct (filter _ vols) as [|v l]; cbn [first_item raise ret fst snd]; [stops H5|].
  wp_step. apply at_stage_volume with (v' := Some v) in H5.
  set (st6 := {| self := _; trace := _ |}) in *. clearbody st6. clear st5.
  apply wp_bind.
  assert (H7 : at_stage (region s) d (Some v) None None Waiting
                        (log (OnDriver d (CreateVolumeSnapshot v name)) st6)).
  { eapply at_stage_log; [exact H5|]. now constructor. }
  apply wp_on_self_driver with d; [apply H5|intros e; stops H7|intros sn0].
  cbn [fst snd]. set (st7 := log _ st6) in *. clearbody st7. clear H5 st6.
  wp_step. apply at_stage_snapshot with (sn' := Some sn0) in H7.
  set (st8 := {| self := _; trace := _ |}) in *. clearbody st8. clear st7.
  unfold wp at 1.
  destruct (wait_stage policy cloud (region s) d v fuel (snap_id sn0) st8 eq_refl
                       (ex_intro _ sn0 H7)) as (sn & H9).
  destruct (_check_snapshot_exists _ _ _ _ st8) as [[b|e|] st9];
    cbn [fst snd] in *; [|stops H9..].
  clear H7 st8 sn0.
  (* the snapshot is made public, the volume is destroyed *)
  wp_step. pose proof H9 as (Hd9 & Hv9 & Hs9 & Hi9 & Hp9).
  rewrite Hs9, Hv9. wp_step. cbn [deref ret fst snd]. apply wp_bind.
  assert (H10 : at_stage (region s) d (Some v) (Some sn) None Public
                         (log (OnDriver d (ModifySnapshotAttribute
                                             sn "CreateVolumePermission.Add.1.Group" "all"))
                              st9)).
  { eapply at_stage_log; [exact H9|]. now constructor. }
  apply wp_on_self_driver with d; [apply H9|intros e; stops H10|intros []].
  cbn [fst snd]. set (st10 := log _ st9) in *. clearbody st10.
  clear H9 Hd9 Hv9 Hs9 Hi9 Hp9 st9.
  wp_step. cbn [deref ret fst snd]. apply wp_bind.
  assert (H11 : at_stage (region s) d (Some v) (Some sn) None Destroyed
                         (log (OnDriver d (DestroyVolume v)) st10)).
  { eapply at_stage_log; [exact H10|]. now constructor. }
  apply wp_on_self_driver with d; [apply H10|intros e; stops H11|intros []].
  cbn [fst snd]. set (st11 := log _ st10) in *. clearbody st11. clear H10 st10.
  wp_step. apply at_stage_volume with (v' := None) in H11.
  set (st12 := {| self := _; trace := _ |}) in *. clearbody st12. clear st11.
  (* the registration *)
  wp_step. pose proof H11 as (Hd12 & Hv12 & Hs12 & Hi12 & Hp12).
  rewrite Hs12. wp_step. cbn [deref ret fst snd].
  exact (Hreg st12 d sn eq_refl H11).
Qed.

End Registering.

(** ** What a run registers *)

Section Registered.
Import Stages.

Variable fedimg : Config.
Variable policy : RetryPolicy.
Variable cloud : Cloud.

(** The registration calls of a run: they are offered the generated name
    and then its successive renames, with the root device and the mapping of
    the job, and there is one of them more than there are duplicate-name
    refusals when the run goes through, and never more than that. *)
Lemma upload_registrations (fuel : nat) (s : EC2Service) :
  volume s = None -> snapshot s = None -> image s = None ->
  let x := run_upload fedimg policy cloud fuel s in
  let name := fst (image_name_and_root s (region s)) in
  let root := snd (image_name_and_root s (region s)) in
  exists n sn,
    registrations (map event (trace (snd x)))
    = map (fun k => (renamed k name, root, mapping_of fedimg s root sn)) (seq 0 n)
    /\ n <= 1 + duplicate_refusals cloud 0 (map event (trace (snd x)))
    /\ (fst x = Ok tt -> n = 1 + duplicate_refusals cloud 0 (map event (trace (snd x)))).
Proof.
  intros Hv Hs Hi x name root. subst x. unfold run_upload.
  change (wp (upload fedimg policy cloud fuel)
             (fun x => exists n sn,
                  registrations (map event (trace (snd x)))
                  = map (fun k => (renamed k name, root, mapping_of fedimg s root sn)) (seq 0 n)
                  /\ n <= 1 + duplicate_refusals cloud 0 (map event (trace (snd x)))
                  /\ (fst x = Ok tt ->
                      n = 1 + duplicate_refusals cloud 0 (map event (trace (snd x)))))
             {| self := s; trace := [] |}).
  apply upload_reaches_registration; try assumption.
  - intros x st d v sn a Hx (_ & _ & _ & _ & Hp) Hr.
    destruct (without_registration cloud (trace st)
                (path_without_registration (region s) (trace st) a Hp Hr)) as [Hreg Hdup].
    exists 0, {| snap_id := EmptyString; snap_state := EmptyString |}.
    cbn [fst snd]. rewrite Hreg, Hdup. repeat split; [lia|]. intros E. now elim Hx.
  - intros st d sn Hr Hat. pose proof Hat as (Hd & _ & _ & _ & Hp).
    destruct (without_registration cloud (trace st)
                (path_without_registration (region s) (trace st) Destroyed Hp
                                           (Nat.le_refl 8))) as [Hreg Hdup].
    unfold register_image. apply wp_bind. unfold wp at 1.
    destruct (register_image_loop_attempts
                cloud root (mapping_of fedimg s root sn) fuel 0 name st d Hd)
      as (n & Ht & Hle & Hok).
    cbn [Nat.ltb Nat.leb] in Ht, Hle, Hok. fold name root.
    set (L := attempts (self st) d name root (mapping_of fedimg s root sn) n) in *.
    assert (HL : registrations (map event (map (entry_of (self st)) L))
                 = map (fun k => (renamed k name, root, mapping_of fedimg s root sn))
                       (seq 0 n)).
    { rewrite map_event_entry_of. apply attempts_registrations. }
    assert (HD : forall rest,
               duplicate_refusals cloud 0
                 (map event ((trace st ++ map (entry_of (self st)) L) ++ rest))
               = duplicate_refusals cloud (List.length (trace st)) L
                 + duplicate_refusals cloud (List.length (trace st) + List.length L)
                                      (map event rest)).
    { intros rest. rewrite !map_app, !duplicate_refusals_app, Hdup, map_event_entry_of.
      rewrite !length_map, length_app, !length_map. simpl. lia. }
    destruct (register_image_loop cloud fuel 0 name root _ st) as [[[]|e|] st'];
      cbn [fst snd] in *.
    + destruct (Hok eq_refl) as (Hn & i & Hself).
      wp_step. rewrite Hself. cbn [image with_image]. wp_step. cbn [deref ret fst snd].
      unfold wp. cbn [message fst snd log trace self].
      exists n, sn. rewrite Ht, HD. rewrite !map_app, !registrations_app, Hreg, HL.
      cbn. rewrite app_nil_r. repeat split; lia.
    + exists n, sn. rewrite <- (app_nil_r (trace st')), Ht, HD.
      rewrite !map_app, !registrations_app, Hreg, HL.
      cbn. rewrite app_nil_r. repeat split; [lia|discriminate].
    + exists n, sn. rewrite <- (app_nil_r (trace st')), Ht, HD.
      rewrite !map_app, !registrations_app, Hreg, HL.
      cbn. rewrite app_nil_r. repeat split; [lia|discriminate].
Qed.

End Registered.

(** ** Image names *)




(** ** The region and the attempts *)

(** C10, as the code has it: every remote operation of a run is addressed to
    the first region of the configured list, whatever else the list holds;
    every registration attempt is made there with no image registered yet.
    A job never makes more than one attempt plus one for every refusal of a
    name as a duplicate, and a job that goes through has made exactly that
    many, at least one, and ends with an image held. *)
Theorem upload_uses_the_first_region
        (fedimg : Config) (get_file_arch : string -> string) (policy : RetryPolicy)
        (cloud : Cloud) (fuel : nat) (url dir virt vol : string) :
  let s := __init__ fedimg get_file_arch url dir virt vol in
  let x := run_upload fedimg policy cloud fuel s in
  let first_region := hd EmptyString (PyStr.split "|" (AWS_REGIONS fedimg)) in
  Forall (fun e => Stages.in_region first_region (event e)) (trace (snd x))
  /\ Forall (fun e => match event e with
                      | OnDriver _ (RegisterImage _ _ _ _ _ _) => held_image e = None
                      | _ => True
                      end) (trace (snd x))
  /\ match fst x with
     | Ok _ => registered_names (map event (trace (snd x))) <> []
               /\ image (self (snd x)) <> None
     | _ => True
     end
  /\ List.length (registered_names (map event (trace (snd x))))
     <= 1 + duplicate_refusals cloud 0 (map event (trace (snd x)))
  /\ match fst x with
     | Ok _ => List.length (registered_names (map event (trace (snd x))))
               = 1 + duplicate_refusals cloud 0 (map event (trace (snd x)))
     | _ => True
     end.
Proof.
  intros s x first_region.
  destruct (upload_stages fedimg policy cloud fuel s eq_refl eq_refl eq_refl) as (a & Hp & Hok).
  destruct (upload_registrations fedimg policy cloud fuel s eq_refl eq_refl eq_refl)
    as (n & sn & Hreg & Hle & Heq).
  fold x in Hp, Hok, Hreg, Hle, Heq. change (region s) with first_region in Hp.
  assert (Hn : List.length (registered_names (map event (trace (snd x)))) = n).
  { now rewrite registered_names_length, Hreg, length_map, length_seq. }
  rewrite Hn. repeat split.
  - apply (path_Forall first_region) with Stages.Fresh a; [|exact Hp].
    apply follows_in_region.
  - apply (path_Forall first_region) with Stages.Fresh a; [|exact Hp].
    apply follows_unregistered.
  - destruct (fst x) as [[]| |]; auto.
    destruct (Hok eq_refl) as [-> Hi]. split; [|exact Hi].
    apply (path_registered first_region) with Stages.Done; auto.
  - exact Hle.
  - destruct (fst x) as [[]| |]; auto.
Qed.

(** * More of the code *)

(** ** The names that [__init__] derives *)

Section Splitting.
Import PyStr Text.

Variable sep : ascii.

Lemma split_nonempty (s : string) : exists p ps, split sep s = p :: ps.
Proof.
  induction s as [|c r (p & ps & IH)]; simpl; [now exists EmptyString, []|].
  destruct (Ascii.eqb c sep); [now exists EmptyString, (split sep r)|].
  rewrite IH. now exists (String c p), ps.
Qed.

Lemma split_without_separator (s : string) :
  has_char sep s = false -> split sep s = [s].
Proof.
  induction s as [|c r IH]; simpl; [reflexivity|]. intros H.
  apply orb_false_elim in H as [Hc Hr]. now rewrite Hc, IH.
Qed.

Lemma split_at_first_separator (a b : string) :
  has_char sep a = false -> split sep (a ++ String sep b) = a :: split sep b.
Proof.
  induction a as [|c a IH]; simpl; intros H.
  - now rewrite Ascii.eqb_refl.
  - apply orb_false_elim in H as [Hc Ha]. now rewrite Hc, IH.
Qed.

Lemma split_after_separator (a b : string) :
  exists p q ps, split sep (a ++ String sep b) = p :: q :: ps.
Proof.
  induction a as [|c a (p & q & ps & IH)]; simpl.
  - rewrite Ascii.eqb_refl. destruct (split_nonempty b) as (q & ps & ->).
    now exists EmptyString, q, ps.
  - destruct (Ascii.eqb c sep).
    + rewrite IH. now exists EmptyString, p, (q :: ps).
    + rewrite IH. now exists (String c p), q, ps.
Qed.

Lemma last_piece_after_separator (a b : string) :
  last_piece (split sep (a ++ String sep b)) = last_piece (split sep b).
Proof.
  unfold last_piece. induction a as [|c a IH]; simpl.
  - rewrite Ascii.eqb_refl. now destruct (split_nonempty b) as (q & ps & ->).
  - destruct (split_after_separator a b) as (p & q & ps & E).
    rewrite E in IH |- *. destruct (Ascii.eqb c sep); exact IH.
Qed.

End Splitting.

Section Stripping.
Import PyStr Text.

Lemma has_char_append (c : ascii) (a b : string) :
  has_char c (a ++ b) = has_char c a || has_char c b.
Proof.
  induction a as [|x a IH]; simpl; [reflexivity|]. now rewrite IH, orb_assoc.
Qed.

(** [.raw.xz] does not overlap itself: it cannot start inside a name that
    it does not start and end in the suffix. *)
Lemma raw_xz_not_astride (c : ascii) (n : string) :
  prefix ".raw.xz" (String c n) = false ->
  prefix ".raw.xz" (String c n ++ ".raw.xz") = false.
Proof.
  cbn [append prefix].
  destruct (ascii_dec "." c); [|reflexivity].
  do 6 (destruct n as [|? n];
        [intros _; cbn;
         repeat match goal with
                | |- context [ascii_dec ?x ?y] => destruct (ascii_dec x y); try reflexivity
                end; try discriminate; try congruence
        |cbn [append prefix];
         match goal with
         | |- context [ascii_dec ?x ?y] => destruct (ascii_dec x y); [|reflexivity]
         end]).
  destruct n; intros H; exact H.
Qed.

Lemma replace_raw_xz_suffix (name : string) :
  contains ".raw.xz" name = false ->
  replace ".raw.xz" "" (name ++ ".raw.xz") = name.
Proof.
  unfold replace. induction name as [|c n IH]; [reflexivity|].
  cbn [contains]. intros H. apply orb_false_elim in H as [Hp Hc].
  change (replace_from ".raw.xz" "" 0 (String c n ++ ".raw.xz"))
    with (if prefix ".raw.xz" (String c n ++ ".raw.xz")
          then "" ++ replace_from ".raw.xz" "" (String.length ".raw.xz" - 1) (n ++ ".raw.xz")
          else String c (replace_from ".raw.xz" "" 0 (n ++ ".raw.xz"))).
  rewrite (raw_xz_not_astride c n Hp), IH; [reflexivity|].
  destruct n; [reflexivity|exact Hc].
Qed.

End Stripping.

(** X1.  The file name is what follows the last slash of the URL, and the
    whole URL when it has no slash. *)
Theorem file_name_is_after_the_last_slash
        (fedimg : Config) (get_file_arch : string -> string)
        (dir file cwd virt vol : string) :
  Text.has_char "/" file = false ->
  file_name (__init__ fedimg get_file_arch (dir ++ "/" ++ file) cwd virt vol) = file
  /\ file_name (__init__ fedimg get_file_arch file cwd virt vol) = file.
Proof.
  intros H. cbn [file_name __init__]. split.
  - change (dir ++ "/" ++ file) with (dir ++ String "/" file).
    rewrite last_piece_after_separator. now rewrite split_without_separator.
  - now rewrite split_without_separator.
Qed.

Lemma file_name_is_after_the_last_slash_witness :
  file_name (__init__ Demo.cfg Demo.arch
                      ("http://example.org/pub" ++ "/" ++ "Fedora-26.x86_64.raw.xz")
                      "/tmp/d" "hvm" "gp2")
  = "Fedora-26.x86_64.raw.xz".
Proof.
  exact (proj1 (file_name_is_after_the_last_slash
                  Demo.cfg Demo.arch "http://example.org/pub" "Fedora-26.x86_64.raw.xz"
                  "/tmp/d" "hvm" "gp2" eq_refl)).
Defined.

(** X2.  For a file [<name>.raw.xz] whose name holds neither a slash nor
    [.raw.xz], the build name is [<name>] and the description of the image
    is [Created from build <name>], whatever the virtualization and volume
    types of the job. *)
Theorem build_name_strips_raw_xz
        (fedimg : Config) (get_file_arch : string -> string)
        (dir name cwd virt vol : string) :
  Text.has_char "/" name = false ->
  PyStr.contains ".raw.xz" name = false ->
  build_name (__init__ fedimg get_file_arch (dir ++ "/" ++ name ++ ".raw.xz") cwd virt vol)
  = name
  /\ image_desc (__init__ fedimg get_file_arch (dir ++ "/" ++ name ++ ".raw.xz") cwd virt vol)
     = "Created from build " ++ name.
Proof.
  intros Hs Hc.
  assert (Hf : PyStr.last_piece (PyStr.split "/" (dir ++ "/" ++ name ++ ".raw.xz"))
               = name ++ ".raw.xz").
  { change (dir ++ "/" ++ name ++ ".raw.xz") with (dir ++ String "/" (name ++ ".raw.xz")).
    rewrite last_piece_after_separator, split_without_separator; [reflexivity|].
    now rewrite has_char_append, Hs. }
  cbn [build_name image_desc __init__]. rewrite Hf, replace_raw_xz_suffix by exact Hc.
  split; reflexivity.
Qed.

Lemma build_name_strips_raw_xz_witness :
  build_name (__init__ Demo.cfg Demo.arch
                       ("http://example.org/pub" ++ "/" ++ "Fedora-26.x86_64" ++ ".raw.xz")
                       "/tmp/d" "hvm" "gp2")
  = "Fedora-26.x86_64".
Proof.
  exact (proj1 (build_name_strips_raw_xz
                  Demo.cfg Demo.arch "http://example.org/pub" "Fedora-26.x86_64"
                  "/tmp/d" "hvm" "gp2" eq_refl eq_refl)).
Defined.

(** X3.  The region of a job is the text of the configured region list up
    to its first [|], the whole of it when it has none; it depends on nothing
    else. *)
Theorem region_is_the_first_configured
        (fedimg : Config) (get_file_arch : string -> string)
        (first others url cwd virt vol : string) :
  Text.has_char "|" first = false ->
  AWS_REGIONS fedimg = first \/ AWS_REGIONS fedimg = first ++ "|" ++ others ->
  region (__init__ fedimg get_file_arch url cwd virt vol) = first.
Proof.
  intros H [E|E]; cbn [region __init__]; rewrite E.
  - now rewrite split_without_separator.
  - change (first ++ "|" ++ others) with (first ++ String "|" others).
    now rewrite split_at_first_separator.
Qed.

Lemma region_is_the_first_configured_witness :
  region (__init__ Demo.cfg Demo.arch "http://example.org/pub/Fedora-26.x86_64.raw.xz"
                   "/tmp/d" "hvm" "gp2")
  = "us-east-1".
Proof.
  refine (region_is_the_first_configured
            Demo.cfg Demo.arch "us-east-1" "eu-west-1" _ _ _ _ eq_refl _).
  right. reflexivity.
Defined.

(** ** More of the cleanup routine *)


Lemma skipn_length_app {A} (t l : list A) : skipn (List.length t) (t ++ l) = l.
Proof. now rewrite skipn_app, skipn_all, Nat.sub_diag. Qed.

(** X4.  Whatever the provider answers, the cleanup calls nothing but
    [delete_image] and [destroy_volume_snapshot], on the driver it is handed,
    and it leaves the volume, the image and the driver of the object as they
    are: a volume still held is never destroyed by it. *)
Theorem clean_up_never_touches_the_volume
        (cloud : Cloud) (drv : Driver) (delete_images : bool) (st : St) :
  let st' := snd (_clean_up cloud drv delete_images st) in
  volume (self st') = volume (self st)
  /\ image (self st') = image (self st)
  /\ driver (self st') = driver (self st)
  /\ Forall (fun e => Counting.is_removal e = true /\ exists c, e = OnDriver drv c)
            (new_events st st')
  /\ Counting.count Counting.is_destroy_volume (skipn (List.length (trace st)) (trace st')) = 0.
Proof.
  destruct st as [s t].
  unfold _clean_up, bind, get_self, on_driver, modify_self, ret, log, new_events, Counting.count.
  cbn [self trace fst snd].
  destruct delete_images, (image s) as [i|] eqn:Hi, (snapshot s) as [sn|] eqn:Hs;
    cbn [fst snd self trace]; rewrite ?Hi, ?Hs; cbn [fst snd self trace];
    repeat match goal with
           | |- context [match ?x with inl _ => _ | inr _ => _ end] =>
               destruct x as [?|[]]; cbn [fst snd self trace]; rewrite ?Hi, ?Hs;
               cbn [fst snd self trace]
           end;
    rewrite <- ?app_assoc, ?skipn_length_app, ?skipn_all;
    cbn; (repeat split; auto); repeat constructor; eauto.
Qed.

(** X5.  With an image held, a refused deletion of the image ends the
    cleanup before the snapshot is looked at, and a refused destruction of
    the snapshot leaves the snapshot referenced. *)
Theorem clean_up_stops_at_a_refusal
        (cloud : Cloud) (drv : Driver) (st : St) (i : Image) (e : Exc) :
  image (self st) = Some i ->
  (delete_image cloud (List.length (trace st)) i = inl e ->
   _clean_up cloud drv true st = (Raise e, log (OnDriver drv (DeleteImage i)) st))
  /\ (forall sn, snapshot (self st) = Some sn ->
                 destroy_volume_snapshot cloud (List.length (trace st)) sn = inl e ->
                 _clean_up cloud drv false st
                 = (Raise e, log (OnDriver drv (DestroyVolumeSnapshot sn)) st)).
Proof.
  destruct st as [s t]. cbn [self trace]. intros Hi. split.
  - intros He. unfold _clean_up, bind, get_self, on_driver. cbn [self trace fst snd].
    rewrite Hi. cbn [self trace fst snd]. rewrite He. reflexivity.
  - intros sn Hs He. unfold _clean_up, bind, get_self, on_driver, ret.
    cbn [self trace fst snd]. rewrite Hi. cbn [self trace fst snd].
    rewrite Hs, ?Hi. cbn [self trace fst snd]. rewrite He. reflexivity.
Qed.

Lemma clean_up_stops_at_a_refusal_witness :
  _clean_up Faults.refusing Demo.drv0 true CleanUp.image_and_snapshot
  = (Raise (ProviderError "AuthFailure"),
     log (OnDriver Demo.drv0 (DeleteImage Demo.img0)) CleanUp.image_and_snapshot).
Proof.
  exact (proj1 (clean_up_stops_at_a_refusal
                  Faults.refusing Demo.drv0 CleanUp.image_and_snapshot Demo.img0
                  (ProviderError "AuthFailure") eq_refl) eq_refl).
Defined.

(** ** More of the registrar's rename *)

Section Rename.
Import PyStr Re Text.

Lemma successor_differs (c : ascii) :
  is_digit c = true ->
  exists x r, str_of_nat (int_of_digit c + 1) = String x r /\ x <> c.
Proof.
  destruct c as [[] [] [] [] [] [] [] []]; intros H; vm_compute in H; try discriminate H;
    eexists _, _; (split; [vm_compute; reflexivity|discriminate]).
Qed.

Lemma digit_ahead_has_digit (s : string) : digit_ahead s = true -> has_digit s = true.
Proof. destruct s as [|c r]; simpl; [discriminate|]. now intros ->. Qed.

Lemma sub_digit_without_digit (s : string) : has_digit s = false -> sub_digit s = s.
Proof.
  induction s as [|c r IH]; simpl; [reflexivity|]. intros H.
  apply orb_false_elim in H as [Hc Hr]. now rewrite Hc, IH.
Qed.

Lemma sub_digit_with_digit (s : string) : has_digit s = true -> sub_digit s <> s.
Proof.
  induction s as [|c r IH]; simpl; [discriminate|]. intros H.
  destruct (is_digit c) eqn:Hc; simpl.
  - destruct (digit_ahead r) eqn:Ha; simpl.
    + intros E. injection E. apply IH. now apply digit_ahead_has_digit.
    + destruct (successor_differs c Hc) as (x & t & -> & Hx). simpl. congruence.
  - simpl in H. intros E. injection E. now apply IH.
Qed.

Lemma digit_ahead_append (a b : string) :
  digit_ahead b = false -> digit_ahead (a ++ b) = digit_ahead a.
Proof. now destruct a. Qed.

Lemma sub_digit_append (a b : string) :
  digit_ahead b = false -> sub_digit (a ++ b) = sub_digit a ++ sub_digit b.
Proof.
  intros Hb. induction a as [|c a IH]; simpl; [reflexivity|].
  rewrite (digit_ahead_append a b Hb), IH.
  destruct (is_digit c && negb (digit_ahead a)); [|reflexivity].
  now rewrite append_assoc.
Qed.

Lemma append_empty (s : string) : s ++ "" = s.
Proof. induction s as [|c s IH]; simpl; [reflexivity|now rewrite IH]. Qed.

Lemma sub_digit_final_digit (base : string) (d : ascii) :
  has_digit base = false ->
  is_digit d = true ->
  sub_digit (base ++ String d "") = base ++ str_of_nat (int_of_digit d + 1).
Proof.
  intros Hb Hd. induction base as [|c r IH]; simpl.
  - now rewrite Hd, append_empty.
  - simpl in Hb. apply orb_false_elim in Hb as [Hc Hr]. now rewrite Hc, IH.
Qed.

Lemma rev_string_append (a b : string) :
  NameSpec.rev_string (a ++ b) = NameSpec.rev_string b ++ NameSpec.rev_string a.
Proof.
  induction a as [|c a IH]; simpl; [now rewrite append_empty|].
  now rewrite IH, append_assoc.
Qed.

Lemma rev_string_involutive (s : string) :
  NameSpec.rev_string (NameSpec.rev_string s) = s.
Proof.
  induction s as [|c s IH]; simpl; [reflexivity|]. now rewrite rev_string_append, IH.
Qed.

Lemma has_digit_append (a b : string) :
  has_digit (a ++ b) = has_digit a || has_digit b.
Proof. induction a as [|c a IH]; simpl; [reflexivity|]. now rewrite IH, orb_assoc. Qed.

Lemma has_digit_rev (s : string) : has_digit (NameSpec.rev_string s) = has_digit s.
Proof.
  induction s as [|c s IH]; simpl; [reflexivity|].
  rewrite has_digit_append, IH. simpl. now rewrite orb_false_r, orb_comm.
Qed.

Lemma span_digits_without_digit (s : string) :
  has_digit s = false -> NameSpec.span_digits s = (EmptyString, s).
Proof.
  destruct s as [|c r]; simpl; [reflexivity|]. intros H.
  apply orb_false_elim in H as [Hc _]. now rewrite Hc.
Qed.

End Rename.

(** X6.  The rename of the registrar changes a name exactly when the name
    holds a digit: a name without a digit is retried as it is. *)
Theorem rename_changes_names_with_a_digit (name : string) :
  Re.sub_digit name = name <-> Text.has_digit name = false.
Proof.
  split.
  - intros E. destruct (Text.has_digit name) eqn:H; [|reflexivity].
    now elim (sub_digit_with_digit name H).
  - apply sub_digit_without_digit.
Qed.

(** X7.  The name of the first retry of a job: the build name, the region
    and the volume type are each renamed, and the final [0] becomes [1]. *)
Theorem first_retry_name (s : EC2Service) (region : string) :
  Re.sub_digit (fst (image_name_and_root s region))
  = Re.sub_digit (build_name s) ++ "-" ++ Re.sub_digit region ++ "-"
    ++ (if String.eqb (virt_type s) "paravirtual" then "PV" else "HVM") ++ "-"
    ++ Re.sub_digit (vol_type s) ++ "-1".
Proof.
  unfold image_name_and_root.
  destruct (String.eqb (virt_type s) "paravirtual"); cbn [fst];
    rewrite (sub_digit_append (build_name s)) by reflexivity;
    change ("-" ++ region ++ ?x) with (String "-" (region ++ x));
    cbn [Re.sub_digit PyStr.is_digit andb];
    f_equal.
  - change (Re.sub_digit (String "-" (region ++ "-PV-" ++ vol_type s ++ "-0")))
      with (String "-" (Re.sub_digit (region ++ "-PV-" ++ vol_type s ++ "-0"))).
    rewrite (sub_digit_append region) by reflexivity.
    change (Re.sub_digit ("-PV-" ++ vol_type s ++ "-0"))
      with ("-PV-" ++ Re.sub_digit (vol_type s ++ "-0")).
    now rewrite (sub_digit_append (vol_type s)) by reflexivity.
  - change (Re.sub_digit (String "-" (region ++ "-HVM-" ++ vol_type s ++ "-0")))
      with (String "-" (Re.sub_digit (region ++ "-HVM-" ++ vol_type s ++ "-0"))).
    rewrite (sub_digit_append region) by reflexivity.
    change (Re.sub_digit ("-HVM-" ++ vol_type s ++ "-0"))
      with ("-HVM-" ++ Re.sub_digit (vol_type s ++ "-0")).
    now rewrite (sub_digit_append (vol_type s)) by reflexivity.
Qed.

(** X8.  On a name whose only digit is its last character the rename does
    what the specification asks for: that digit, as an integer, plus one. *)
Theorem rename_of_a_single_final_digit (base : string) (d : ascii) :
  Text.has_digit base = false ->
  PyStr.is_digit d = true ->
  Re.sub_digit (base ++ String d "") = base ++ PyStr.str_of_nat (PyStr.int_of_digit d + 1)
  /\ Re.sub_digit (base ++ String d "") = NameSpec.increment_final_run (base ++ String d "").
Proof.
  intros Hb Hd. rewrite (sub_digit_final_digit base d Hb Hd). split; [reflexivity|].
  unfold NameSpec.increment_final_run. rewrite rev_string_append.
  cbn [NameSpec.rev_string append NameSpec.span_digits]. rewrite Hd.
  rewrite span_digits_without_digit by now rewrite has_digit_rev.
  cbn [fst snd NameSpec.rev_string append NameSpec.int_of_digits].
  rewrite rev_string_involutive. reflexivity.
Qed.

Lemma rename_of_a_single_final_digit_witness :
  Re.sub_digit ("foo-" ++ "9") = "foo-" ++ PyStr.str_of_nat (PyStr.int_of_digit "9" + 1).
Proof.
  exact (proj1 (rename_of_a_single_final_digit "foo-" "9" eq_refl eq_refl)).
Defined.

(** ** More of the registrar *)

Section Registrar.

Variable cloud : Cloud.
Variable root : string.
Variable mapping : list BlockDevice.

Lemma map_seq_succ {A} (f : nat -> A) (n : nat) :
  map f (seq 0 (S n)) = f 0 :: map (fun k => f (S k)) (seq 0 n).
Proof. simpl. now rewrite <- seq_shift, map_map. Qed.

(** The name of the first attempt of the loop entered with the counter
    [cnt]. *)
Lemma register_image_loop_names (fuel cnt : nat) (name : string) (st : St) (d : Driver) :
  driver (self st) = Some d ->
  let first := if (0 <? cnt)%nat then Re.sub_digit name else name in
  let x := register_image_loop cloud fuel cnt name root mapping st in
  exists n,
    n <= fuel
    /\ trace (snd x)
       = (trace st
          ++ map (fun k => entry_of (self st)
                                    (registration_of (self st) d (renamed k first) root mapping))
                 (seq 0 n))%list
    /\ (self (snd x) = self st \/ exists i, self (snd x) = with_image (Some i) (self st)).
Proof.
  revert cnt name st. induction fuel as [|f IH]; intros cnt name st Hd; cbn zeta.
  - exists 0. simpl. rewrite app_nil_r. auto.
  - cbn [register_image_loop].
    set (first := if (0 <? cnt)%nat then Re.sub_digit name else name).
    rewrite (on_self_driver_eq cloud _ _ st d Hd).
    destruct (ex_register_image cloud _ first) as [e|i].
    + destruct (PyStr.contains _ _).
      * destruct (IH (cnt + 1) first (log (registration_of (self st) d first root mapping) st) Hd)
          as (n & Hn & Ht & Hs).
        replace (0 <? cnt + 1)%nat with true in Ht
          by (symmetry; apply Nat.ltb_lt; lia).
        exists (S n). split; [lia|]. split; [|exact Hs].
        unfold registration_of in *. rewrite Ht, map_seq_succ. cbn [log trace self].
        rewrite <- app_assoc. cbn [app]. change (renamed 0 first) with first.
        do 2 f_equal. apply map_ext. intros k. now rewrite renamed_succ.
      * exists 1. split; [lia|]. cbn. auto.
    + exists 1. split; [lia|]. cbn. split; [reflexivity|]. right. now exists i.
Qed.

(** What the loop answers when its first [n] attempts are refused as
    duplicates and the next one is answered with [answer]. *)
Lemma register_image_loop_outcome (n : nat) :
  forall (fuel cnt : nat) (name : string) (st : St) (d : Driver) (answer : Exc + Image),
    driver (self st) = Some d ->
    let first := if (0 <? cnt)%nat then Re.sub_digit name else name in
    (forall j, j < n ->
               exists e, ex_register_image cloud (List.length (trace st) + j) (renamed j first)
                         = inl e
                         /\ PyStr.contains "InvalidAMIName.Duplicate" (str_of_exc e) = true) ->
    ex_register_image cloud (List.length (trace st) + n) (renamed n first) = answer ->
    match answer with
    | inl e => PyStr.contains "InvalidAMIName.Duplicate" (str_of_exc e) = false
    | inr _ => True
    end ->
    n < fuel ->
    register_image_loop cloud fuel cnt name root mapping st
    = (match answer with inl e => Raise e | inr _ => Ok tt end,
       {| self := match answer with
                  | inl _ => self st
                  | inr i => with_image (Some i) (self st)
                  end;
          trace := (trace st
                    ++ map (fun k => entry_of (self st)
                                              (registration_of (self st) d (renamed k first)
                                                               root mapping))
                           (seq 0 (S n)))%list |}).
Proof.
  induction n as [|n IH]; intros fuel cnt name st d answer Hd first Hdup Hans Hfatal Hfuel;
    (destruct fuel as [|f]; [lia|]); cbn [register_image_loop]; fold first;
    rewrite (on_self_driver_eq cloud _ _ st d Hd).
  - rewrite Nat.add_0_r in Hans. change (renamed 0 first) with first in Hans. rewrite Hans.
    destruct answer as [e|i].
    + rewrite Hfatal. reflexivity.
    + reflexivity.
  - destruct (Hdup 0) as (e & He & Hc); [lia|].
    rewrite Nat.add_0_r in He. change (renamed 0 first) with first in He. rewrite He, Hc.
    set (st1 := log _ st).
    assert (Hlen : forall j, List.length (trace st1) + j = List.length (trace st) + S j).
    { intros j. subst st1. cbn [log trace]. rewrite length_app. simpl. lia. }
    rewrite (IH f (cnt + 1) first st1 d answer Hd).
    + replace (0 <? cnt + 1)%nat with true by (symmetry; apply Nat.ltb_lt; lia).
      f_equal. subst st1. cbn [log self trace]. f_equal.
      rewrite (map_seq_succ _ (S n)), <- app_assoc. cbn [app]. change (renamed 0 first) with first.
      unfold registration_of. do 2 f_equal. apply map_ext. intros k.
      now rewrite renamed_succ.
    + replace (0 <? cnt + 1)%nat with true by (symmetry; apply Nat.ltb_lt; lia).
      intros j Hj. rewrite Hlen, <- renamed_succ. apply Hdup. lia.
    + replace (0 <? cnt + 1)%nat with true by (symmetry; apply Nat.ltb_lt; lia).
      now rewrite Hlen, <- renamed_succ.
    + exact Hfatal.
    + lia.
Qed.

End Registrar.

(** X9.  Whatever the provider answers, [register_image] makes nothing but
    registration calls, at most one per unit of fuel, with the same
    description, root device, mapping, virtualization type and architecture;
    the names it offers are the given name and then its successive renames,
    and it changes nothing of the object but the image. *)
Theorem register_image_offers_the_successive_renames
        (cloud : Cloud) (fuel : nat) (name root : string) (mapping : list BlockDevice)
        (st : St) (d : Driver) :
  driver (self st) = Some d ->
  let x := register_image cloud fuel name root mapping st in
  exists n,
    n <= fuel
    /\ trace (snd x)
       = (trace st
          ++ map (fun k => entry_of (self st)
                                    (registration_of (self st) d (renamed k name) root mapping))
                 (seq 0 n))%list
    /\ (self (snd x) = self st \/ exists i, self (snd x) = with_image (Some i) (self st)).
Proof.
  intros Hd. exact (register_image_loop_names cloud root mapping fuel 0 name st d Hd).
Qed.

Lemma register_image_offers_the_successive_renames_witness :
  exists n,
    n <= 3
    /\ trace (snd (register_image (Demo.provider Demo.import_ok 0) 3 "foo-0" "/dev/sda1" []
                                  Faults.ready))
       = (trace Faults.ready
          ++ map (fun k => entry_of (self Faults.ready)
                                    (registration_of (self Faults.ready) Demo.drv0
                                                     (renamed k "foo-0") "/dev/sda1" []))
                 (seq 0 n))%list
    /\ (self (snd (register_image (Demo.provider Demo.import_ok 0) 3 "foo-0" "/dev/sda1" []
                                  Faults.ready))
        = self Faults.ready
        \/ exists i, self (snd (register_image (Demo.provider Demo.import_ok 0) 3 "foo-0"
                                               "/dev/sda1" [] Faults.ready))
                     = with_image (Some i) (self Faults.ready)).
Proof.
  exact (register_image_offers_the_successive_renames
           (Demo.provider Demo.import_ok 0) 3 "foo-0" "/dev/sda1" [] Faults.ready Demo.drv0
           eq_refl).
Defined.

(** X10.  When the first [n] names are refused as duplicates and the next
    one is accepted, [register_image] returns after [n + 1] attempts with the
    image held; when the next one is refused for any other reason, that error
    is raised at once and no image is held.  Fuel above [n] is enough. *)
Theorem register_image_after_duplicates
        (cloud : Cloud) (n fuel : nat) (name root : string) (mapping : list BlockDevice)
        (st : St) (d : Driver) (answer : Exc + Image) :
  driver (self st) = Some d ->
  (forall j, j < n ->
             exists e, ex_register_image cloud (List.length (trace st) + j) (renamed j name)
                       = inl e
                       /\ PyStr.contains "InvalidAMIName.Duplicate" (str_of_exc e) = true) ->
  ex_register_image cloud (List.length (trace st) + n) (renamed n name) = answer ->
  match answer with
  | inl e => PyStr.contains "InvalidAMIName.Duplicate" (str_of_exc e) = false
  | inr _ => True
  end ->
  n < fuel ->
  register_image cloud fuel name root mapping st
  = (match answer with inl e => Raise e | inr _ => Ok tt end,
     {| self := match answer with
                | inl _ => self st
                | inr i => with_image (Some i) (self st)
                end;
        trace := (trace st
                  ++ map (fun k => entry_of (self st)
                                            (registration_of (self st) d (renamed k name)
                                                             root mapping))
                         (seq 0 (S n)))%list |}).
Proof.
  intros Hd Hdup Hans Hfatal Hfuel.
  exact (register_image_loop_outcome cloud root mapping n fuel 0 name st d answer
                                     Hd Hdup Hans Hfatal Hfuel).
Qed.

Lemma register_image_after_duplicates_witness :
  register_image (Demo.provider Demo.import_ok 0) 3 "foo-9" "/dev/sda1" [] Faults.ready
  = (Ok tt,
     {| self := with_image (Some Demo.img0) (self Faults.ready);
        trace := (trace Faults.ready
                  ++ map (fun k => entry_of (self Faults.ready)
                                            (registration_of (self Faults.ready) Demo.drv0
                                                             (renamed k "foo-9")
                                                             "/dev/sda1" []))
                         (seq 0 2))%list |}).
Proof.
  refine (register_image_after_duplicates
            (Demo.provider Demo.import_ok 0) 1 3 "foo-9" "/dev/sda1" [] Faults.ready
            Demo.drv0 (inr Demo.img0) eq_refl _ eq_refl I _).
  - intros j Hj. exists (ProviderError "InvalidAMIName.Duplicate: name in use").
    destruct j as [|j]; [split; reflexivity|lia].
  - lia.
Defined.

(** ** More of the pollers *)

Section Pollers.

Variable policy : RetryPolicy.
Variable cloud : Cloud.

Lemma describe_attempt_eq (task_id region : string) (st : St) :
  describe_conversion_tasks_attempt cloud task_id region st
  = (fst (conversion_status
            (fst (run_system_command cloud (List.length (trace st))
                                     (describe_command task_id region)))
            (log (Shell (describe_command task_id region)) st)),
     log (Shell (describe_command task_id region)) st).
Proof.
  unfold describe_conversion_tasks_attempt, bind, system, conversion_status.
  cbn [fst snd].
  destruct (PyStr.contains _ _); [|reflexivity].
  destruct (Re.search_token _ _ _); reflexivity.
Qed.

Lemma describe_returns (n : nat) :
  forall (fuel : nat) (task_id region volume_id : string) (st : St),
    retry_if_result_false policy (VStr EmptyString) = true ->
    retry_if_result_false policy (VStr volume_id) = false ->
    (forall j, j < n ->
               PyStr.contains "completed"
                 (fst (run_system_command cloud (List.length (trace st) + j)
                                          (describe_command task_id region))) = false) ->
    PyStr.contains "completed"
      (fst (run_system_command cloud (List.length (trace st) + n)
                               (describe_command task_id region))) = true ->
    Re.search_token "vol-" 17
      (fst (run_system_command cloud (List.length (trace st) + n)
                               (describe_command task_id region))) = Some volume_id ->
    n < fuel ->
    describe_conversion_tasks policy cloud fuel task_id region st
    = (Ok volume_id,
       {| self := self st;
          trace := (trace st
                    ++ repeat (entry_of (self st) (Shell (describe_command task_id region)))
                              (S n))%list |}).
Proof.
  induction n as [|n IH]; intros fuel task_id region volume_id st Hnot Hyes Hwait Hdone Hvol Hfuel;
    (destruct fuel as [|f]; [lia|]);
    unfold describe_conversion_tasks; cbn [retry];
    rewrite describe_attempt_eq; unfold conversion_status.
  - rewrite Nat.add_0_r in Hdone, Hvol. rewrite Hdone, Hvol. cbn [fst snd ret].
    rewrite Hyes. reflexivity.
  - pose proof (Hwait 0 ltac:(lia)) as H0. rewrite Nat.add_0_r in H0. rewrite H0.
    cbn [fst snd ret]. rewrite Hnot.
    fold (describe_conversion_tasks policy cloud f task_id region).
    set (st1 := log _ st).
    assert (Hlen : forall j, List.length (trace st1) + j = List.length (trace st) + S j).
    { intros j. subst st1. cbn [log trace]. rewrite length_app. simpl. lia. }
    rewrite (IH f task_id region volume_id st1 Hnot Hyes).
    + subst st1. cbn [log self trace]. rewrite <- app_assoc. reflexivity.
    + intros j Hj. rewrite Hlen. apply Hwait. lia.
    + now rewrite Hlen.
    + now rewrite Hlen.
    + lia.
Qed.

Lemma with_snapshot_twice (a b : option Snapshot) (s : EC2Service) :
  with_snapshot a (with_snapshot b s) = with_snapshot a s.
Proof. reflexivity. Qed.

Lemma with_snapshot_held (sn : Snapshot) (s : EC2Service) :
  snapshot s = Some sn -> with_snapshot (Some sn) s = s.
Proof. destruct s; simpl; intros ->; reflexivity. Qed.

Lemma wait_returns (m : nat) :
  forall (fuel : nat) (snapshot_id : string) (st : St) (d : Driver) (shown : nat -> Snapshot),
    retry_if_result_false policy (VBool false) = true ->
    retry_if_result_false policy (VBool true) = false ->
    driver (self st) = Some d ->
    snapshot (self st) = Some (shown 0) ->
    (forall j, j < m ->
               snap_state (shown j) <> "completed"
               /\ exists l rest,
                   list_snapshots cloud (List.length (trace st) + j) = inr l
                   /\ filter (fun x => String.eqb (snap_id x) snapshot_id) l
                      = shown (S j) :: rest) ->
    snap_state (shown m) = "completed" ->
    m < fuel ->
    _check_snapshot_exists policy cloud fuel snapshot_id st
    = (Ok true,
       {| self := with_snapshot (Some (shown m)) (self st);
          trace := (trace st
                    ++ map (fun j => entry_of (with_snapshot (Some (shown j)) (self st))
                                              (OnDriver d ListSnapshots))
                           (seq 0 m))%list |}).
Proof.
  induction m as [|m IH];
    intros fuel snapshot_id st d shown Hfalse Htrue Hd Hs Hwait Hdone Hfuel;
    (destruct fuel as [|f]; [lia|]);
    unfold _check_snapshot_exists; cbn [retry];
    unfold _check_snapshot_exists_attempt at 1;
    unfold bind at 1; cbn [get_self]; rewrite Hs; unfold bind at 1; cbn [deref ret].
  - rewrite Hdone, String.eqb_refl. cbn [negb ret].
    rewrite Htrue. cbn [seq map]. rewrite app_nil_r, with_snapshot_held by exact Hs.
    now destruct st.
  - destruct (Hwait 0) as (Hpending & l & rest & Hl & Hf); [lia|].
    apply String.eqb_neq in Hpending. rewrite Hpending. cbn [negb].
    unfold bind at 1. rewrite (on_self_driver_eq cloud _ _ st d Hd).
    rewrite Nat.add_0_r in Hl. rewrite Hl.
    unfold bind at 1. rewrite Hf. cbn [first_item ret]. unfold bind at 1.
    cbn [modify_self ret]. rewrite Hfalse.
    fold (_check_snapshot_exists policy cloud f snapshot_id).
    set (st1 := {| self := _; trace := _ |}).
    assert (Hlen : forall j, List.length (trace st1) + j = List.length (trace st) + S j).
    { intros j. subst st1. cbn [log trace]. rewrite length_app. simpl. lia. }
    rewrite (IH f snapshot_id st1 d (fun j => shown (S j)) Hfalse Htrue Hd eq_refl).
    + subst st1. cbn [log self trace]. rewrite !with_snapshot_twice.
      rewrite map_seq_succ, <- app_assoc. cbn [app].
      rewrite (with_snapshot_held (shown 0) (self st) Hs). reflexivity.
    + intros j Hj. rewrite Hlen. apply Hwait. lia.
    + exact Hdone.
    + lia.
Qed.

End Pollers.
(** X11.  Under a retry filter that retries on the empty answer and stops on
    the volume id, the conversion poller queries the status until the output
    first holds [completed], and returns the volume id of that output: when
    the first [n] outputs do not hold it, it returns after [n + 1] queries of
    the same command, the object unchanged.  Fuel above [n] is enough. *)
Theorem describe_conversion_tasks_returns
        (policy : RetryPolicy) (cloud : Cloud) (n fuel : nat)
        (task_id region volume_id : string) (st : St) :
  retry_if_result_false policy (VStr EmptyString) = true ->
  retry_if_result_false policy (VStr volume_id) = false ->
  (forall j, j < n ->
             PyStr.contains "completed"
               (fst (run_system_command cloud (List.length (trace st) + j)
                                        (describe_command task_id region))) = false) ->
  PyStr.contains "completed"
    (fst (run_system_command cloud (List.length (trace st) + n)
                             (describe_command task_id region))) = true ->
  Re.search_token "vol-" 17
    (fst (run_system_command cloud (List.length (trace st) + n)
                             (describe_command task_id region))) = Some volume_id ->
  n < fuel ->
  describe_conversion_tasks policy cloud fuel task_id region st
  = (Ok volume_id,
     {| self := self st;
        trace := (trace st
                  ++ repeat (entry_of (self st) (Shell (describe_command task_id region)))
                            (S n))%list |}).
Proof.
  intros. now apply describe_returns.
Qed.

Lemma describe_conversion_tasks_returns_witness :
  describe_conversion_tasks spec_policy Faults.slow_conversion 5 "import-vol-abcdefgh"
                            "us-east-1" Faults.ready
  = (Ok "vol-01234567890abcdef",
     {| self := self Faults.ready;
        trace := (trace Faults.ready
                  ++ repeat (entry_of (self Faults.ready)
                                      (Shell (describe_command "import-vol-abcdefgh"
                                                               "us-east-1")))
                            3)%list |}).
Proof.
  refine (describe_conversion_tasks_returns
            spec_policy Faults.slow_conversion 2 5 "import-vol-abcdefgh" "us-east-1"
            "vol-01234567890abcdef" Faults.ready eq_refl eq_refl _ eq_refl eq_refl _).
  - intros j Hj. destruct j as [|[|j]]; [reflexivity|reflexivity|lia].
  - lia.
Defined.

(** X12.  Under a retry filter that retries on [False] and stops on [True],
    the snapshot waiter lists the snapshots once for every state of the
    snapshot that is not [completed], each time taking the first listed
    snapshot of the given id as the one it holds, and it returns [True]
    without a further call once the snapshot it holds is [completed]: at
    once when the snapshot is created completed. *)
Theorem check_snapshot_exists_returns
        (policy : RetryPolicy) (cloud : Cloud) (m fuel : nat) (snapshot_id : string)
        (st : St) (d : Driver) (shown : nat -> Snapshot) :
  retry_if_result_false policy (VBool false) = true ->
  retry_if_result_false policy (VBool true) = false ->
  driver (self st) = Some d ->
  snapshot (self st) = Some (shown 0) ->
  (forall j, j < m ->
             snap_state (shown j) <> "completed"
             /\ exists l rest,
                 list_snapshots cloud (List.length (trace st) + j) = inr l
                 /\ filter (fun x => String.eqb (snap_id x) snapshot_id) l
                    = shown (S j) :: rest) ->
  snap_state (shown m) = "completed" ->
  m < fuel ->
  _check_snapshot_exists policy cloud fuel snapshot_id st
  = (Ok true,
     {| self := with_snapshot (Some (shown m)) (self st);
        trace := (trace st
                  ++ map (fun j => entry_of (with_snapshot (Some (shown j)) (self st))
                                            (OnDriver d ListSnapshots))
                         (seq 0 m))%list |}).
Proof.
  intros. now apply wait_returns.
Qed.

Lemma check_snapshot_exists_returns_witness :
  _check_snapshot_exists spec_policy Faults.slow_snapshot 5 "snap-1" Faults.waiting
  = (Ok true,
     {| self := with_snapshot (Some (Faults.shown 2)) (self Faults.waiting);
        trace := (trace Faults.waiting
                  ++ map (fun j => entry_of (with_snapshot (Some (Faults.shown j))
                                                           (self Faults.waiting))
                                            (OnDriver Demo.drv0 ListSnapshots))
                         (seq 0 2))%list |}).
Proof.
  refine (check_snapshot_exists_returns
            spec_policy Faults.slow_snapshot 2 5 "snap-1" Faults.waiting Demo.drv0
            Faults.shown eq_refl eq_refl eq_refl eq_refl _ eq_refl _).
  - intros j Hj. destruct j as [|[|j]]; [| |lia].
    + split; [discriminate|]. now exists [Faults.pending], [].
    + split; [discriminate|]. now exists [Demo.snap0], [].
  - lia.
Defined.

(** X13.  When the snapshot held is not completed and the listing shows no
    snapshot of the given id, an attempt of the waiter raises the
    [IndexError] of the empty selection after that one listing and the
    snapshot stays referenced; a retry filter that lets exceptions through
    makes this the answer of the waiter. *)
Theorem check_snapshot_exists_loses_the_snapshot
        (policy : RetryPolicy) (cloud : Cloud) (fuel : nat) (snapshot_id : string)
        (st : St) (d : Driver) (sn : Snapshot) (l : list Snapshot) :
  driver (self st) = Some d ->
  snapshot (self st) = Some sn ->
  snap_state sn <> "completed" ->
  list_snapshots cloud (List.length (trace st)) = inr l ->
  (forall x, In x l -> snap_id x <> snapshot_id) ->
  _check_snapshot_exists_attempt cloud snapshot_id st
  = (Raise IndexError, log (OnDriver d ListSnapshots) st)
  /\ (retry_on_exception policy IndexError = false ->
      _check_snapshot_exists policy cloud (S fuel) snapshot_id st
      = (Raise IndexError, log (OnDriver d ListSnapshots) st)).
Proof.
  intros Hd Hs Hp Hl Hno.
  assert (Hf : filter (fun x => String.eqb (snap_id x) snapshot_id) l = []).
  { clear Hl. induction l as [|x l IH]; simpl; [reflexivity|].
    destruct (String.eqb_spec (snap_id x) snapshot_id) as [E|_].
    - elim (Hno x); auto. now left.
    - apply IH. intros y Hy. apply Hno. now right. }
  assert (Ha : _check_snapshot_exists_attempt cloud snapshot_id st
               = (Raise IndexError, log (OnDriver d ListSnapshots) st)).
  { unfold _check_snapshot_exists_attempt.
    unfold bind at 1. cbn [get_self]. rewrite Hs. unfold bind at 1. cbn [deref ret].
    apply String.eqb_neq in Hp. rewrite Hp. cbn [negb].
    unfold bind at 1. rewrite (on_self_driver_eq cloud _ _ st d Hd), Hl.
    unfold bind at 1. rewrite Hf. reflexivity. }
  split; [exact Ha|]. intros Hpol.
  unfold _check_snapshot_exists. cbn [retry]. now rewrite Ha, Hpol.
Qed.

Lemma check_snapshot_exists_loses_the_snapshot_witness :
  _check_snapshot_exists_attempt Demo.calm "snap-2"
                                 {| self := with_snapshot (Some Faults.pending)
                                                          (self Faults.ready);
                                    trace := [] |}
  = (Raise IndexError,
     log (OnDriver Demo.drv0 ListSnapshots)
         {| self := with_snapshot (Some Faults.pending) (self Faults.ready); trace := [] |}).
Proof.
  refine (proj1 (check_snapshot_exists_loses_the_snapshot
                   spec_policy Demo.calm 0 "snap-2"
                   {| self := with_snapshot (Some Faults.pending) (self Faults.ready);
                      trace := [] |}
                   Demo.drv0 Faults.pending [Demo.snap0] eq_refl eq_refl _ eq_refl _)).
  - discriminate.
  - intros x [<-|[]]. discriminate.
Defined.

(** X14.  [match_regex_pattern] answers the empty string exactly when no
    [import-vol-] token of 8 identifier characters stands right after a white
    space character of the output, and the leftmost such token otherwise. *)
Theorem match_regex_pattern_answer (output : string) :
  (match_regex_pattern output = EmptyString
   /\ forall before tok, ~ Status.token_at "import-vol-" 8 output before tok)
  \/ (exists before,
         Status.token_at "import-vol-" 8 output before (match_regex_pattern output)
         /\ forall before' tok', Status.token_at "import-vol-" 8 output before' tok' ->
                                 String.length before <= String.length before').
Proof.
  unfold match_regex_pattern.
  destruct (Re.search_token "import-vol-" 8 output) as [tok|] eqn:H.
  - right. now apply search_token_some.
  - left. split; [reflexivity|]. now apply search_token_none.
Qed.

(** ** More of the orchestrator *)

Section Opening.

Variable fedimg : Config.
Variable policy : RetryPolicy.
Variable cloud : Cloud.

(** X15.  Whatever follows, a run begins with the announcement of the
    upload, the listing of the available zones of the region and, when
    there is one, the import of [cwd/file_name] as a raw image into the
    bucket [{AWS_BUCKET_NAME}-{region}] and the first available zone. *)
Theorem upload_opens_with_the_import
        (fuel : nat) (s : EC2Service) (z : Zone) (zs : list Zone) :
  ex_list_availability_zones cloud 1 = inr (z :: zs) ->
  exists rest,
    trace (snd (run_upload fedimg policy cloud fuel s))
    = entry_of s (Message "image.upload" (raw_url s) ("EC2 (" ++ region s ++ ")")
                          "started" [])
      :: entry_of s (OnDriver {| drv_region := region s;
                                 drv_access_id := AWS_ACCESS_ID fedimg;
                                 drv_secret_key := AWS_SECRET_KEY fedimg |}
                              ListAvailabilityZones)
      :: entry_of s (Shell (import_command (cwd s) (file_name s) "raw" (region s)
                                           (AWS_BUCKET_NAME fedimg ++ "-" ++ region s)
                                           (zone_name z)))
      :: rest.
Proof.
  intros Hz. unfold run_upload.
  match goal with
  | |- exists rest, trace (snd (?m ?st)) = ?a :: ?b :: ?c :: rest =>
      change (wp m (fun x => exists rest, trace (snd x) = a :: b :: c :: rest) st)
  end.
  unfold upload.
  wp_step. wp_step. wp_step. wp_step.
  apply wp_bind. unfold get_availability_zone. apply wp_bind. unfold wp at 1.
  erewrite on_self_driver_eq by reflexivity.
  cbn [trace log self List.length app]. rewrite Hz. cbn [fst snd first_item].
  unfold wp at 1. cbn [ret fst snd].
  apply wp_bind. unfold import_image_volume. wp_step. unfold wp at 1.
  cbn [system fst snd trace log self app List.length with_driver with_destination
       cwd file_name region].
  set (st3 := log _ _).
  set (k := fun volume_id : string => _).
  assert (Hg : grows st3 (snd (bind (describe_conversion_tasks
                                       policy cloud fuel
                                       (match_regex_pattern
                                          (fst (run_system_command
                                                  cloud 2
                                                  (import_command
                                                     (cwd s) (file_name s) "raw" (region s)
                                                     (AWS_BUCKET_NAME fedimg ++ "-" ++ region s)
                                                     (zone_name z)))))
                                       (region s)) k st3))).
  { apply stable_bind; [exact grows_trans| |].
    - apply stable_describe; [exact grows_refl|exact grows_trans|exact grows_log].
    - intros a. subst k. cbv beta. unfold register_image. stable_tac. }
  destruct Hg as [l Hl]. unfold wp. exists l. rewrite Hl. reflexivity.
Qed.

End Opening.

Lemma upload_opens_with_the_import_witness :
  exists rest,
    trace (snd (run_upload Demo.cfg spec_policy Demo.calm 3 Demo.job))
    = entry_of Demo.job (Message "image.upload" (raw_url Demo.job)
                                 ("EC2 (" ++ region Demo.job ++ ")") "started" [])
      :: entry_of Demo.job (OnDriver {| drv_region := region Demo.job;
                                        drv_access_id := AWS_ACCESS_ID Demo.cfg;
                                        drv_secret_key := AWS_SECRET_KEY Demo.cfg |}
                                     ListAvailabilityZones)
      :: entry_of Demo.job
                  (Shell (import_command (cwd Demo.job) (file_name Demo.job) "raw"
                                         (region Demo.job)
                                         (AWS_BUCKET_NAME Demo.cfg ++ "-" ++ region Demo.job)
                                         (zone_name {| zone_name := "us-east-1a" |})))
      :: rest.
Proof.
  exact (upload_opens_with_the_import Demo.cfg spec_policy Demo.calm 3 Demo.job
                                      {| zone_name := "us-east-1a" |} [] eq_refl).
Defined.

(** X16.  When the region has no available zone, or the listing of the zones
    is refused, the run ends there with the [IndexError] of the empty list,
    or with the error of the driver: nothing is imported, and the object
    holds no resource. *)
Theorem upload_without_a_zone
        (fedimg : Config) (policy : RetryPolicy) (cloud : Cloud) (fuel : nat)
        (s : EC2Service) (e : Exc) :
  (ex_list_availability_zones cloud 1 = inr [] /\ e = IndexError)
  \/ ex_list_availability_zones cloud 1 = inl e ->
  run_upload fedimg policy cloud fuel s
  = (Raise e,
     log (OnDriver {| drv_region := region s;
                      drv_access_id := AWS_ACCESS_ID fedimg;
                      drv_secret_key := AWS_SECRET_KEY fedimg |}
                   ListAvailabilityZones)
         {| self := with_driver (Some {| drv_region := region s;
                                         drv_access_id := AWS_ACCESS_ID fedimg;
                                         drv_secret_key := AWS_SECRET_KEY fedimg |})
                                (with_destination (Some ("EC2 (" ++ region s ++ ")")) s);
            trace := [entry_of s (Message "image.upload" (raw_url s)
                                          ("EC2 (" ++ region s ++ ")") "started" [])] |}).
Proof.
  intros H. unfold run_upload, upload.
  unfold bind at 1. cbn [get_self]. unfold bind at 1. cbn [modify_self].
  unfold bind at 1. cbn [message]. unfold bind at 1. cbn [modify_self].
  unfold bind at 1. unfold get_availability_zone. unfold bind at 1.
  erewrite on_self_driver_eq by reflexivity.
  cbn [trace log self List.length app].
  destruct H as [[-> ->]| ->]; reflexivity.
Qed.

Lemma upload_without_a_zone_witness :
  run_upload Demo.cfg spec_policy Faults.no_zone 3 Demo.job
  = (Raise IndexError,
     log (OnDriver {| drv_region := region Demo.job;
                      drv_access_id := AWS_ACCESS_ID Demo.cfg;
                      drv_secret_key := AWS_SECRET_KEY Demo.cfg |}
                   ListAvailabilityZones)
         {| self := with_driver (Some {| drv_region := region Demo.job;
                                         drv_access_id := AWS_ACCESS_ID Demo.cfg;
                                         drv_secret_key := AWS_SECRET_KEY Demo.cfg |})
                                (with_destination
                                   (Some ("EC2 (" ++ region Demo.job ++ ")")) Demo.job);
            trace := [entry_of Demo.job
                               (Message "image.upload" (raw_url Demo.job)
                                        ("EC2 (" ++ region Demo.job ++ ")") "started" [])] |}).
Proof.
  exact (upload_without_a_zone Demo.cfg spec_policy Faults.no_zone 3 Demo.job IndexError
                               (or_introl (conj eq_refl eq_refl))).
Defined.

(** ** How often a run calls *)

Section Counts.
Import Stages.

Variable r : string.

Lemma count_snoc (p : Event -> bool) (t : list Entry) (e : Entry) :
  Counting.count p (t ++ [e]) = Counting.count p t + (if p (event e) then 1 else 0).
Proof.
  unfold Counting.count. rewrite filter_app, length_app. simpl.
  now destruct (p (event e)).
Qed.

Lemma path_counts (t : list Entry) (a : Stage) :
  path r Fresh t a ->
  Counting.count Counting.is_create_snapshot t = (if (6 <=? Calls.rank a)%nat then 1 else 0)
  /\ Counting.count Counting.is_modify_snapshot t = (if (7 <=? Calls.rank a)%nat then 1 else 0)
  /\ Counting.count Counting.is_destroy_volume t = (if (8 <=? Calls.rank a)%nat then 1 else 0)
  /\ Counting.count Counting.is_removal t = 0.
Proof.
  intros H. remember Fresh as a0 eqn:E.
  induction H as [a|a t b e c Hp IH Hf]; [subst a; cbn; auto|].
  destruct (IH E) as (Hc & Hm & Hd & Hr). rewrite !count_snoc, Hc, Hm, Hd, Hr.
  destruct Hf; cbn; auto.
Qed.

End Counts.

(** X17.  A run never deletes an image or destroys a snapshot, and it
    creates at most one snapshot, makes at most one snapshot public and
    destroys at most one volume; a run that goes through has done each of the
    three once. *)
Theorem upload_calls_at_most_once
        (fedimg : Config) (policy : RetryPolicy) (cloud : Cloud) (fuel : nat)
        (s : EC2Service) :
  volume s = None -> snapshot s = None -> image s = None ->
  let x := run_upload fedimg policy cloud fuel s in
  Counting.count Counting.is_removal (trace (snd x)) = 0
  /\ Counting.count Counting.is_create_snapshot (trace (snd x)) <= 1
  /\ Counting.count Counting.is_modify_snapshot (trace (snd x)) <= 1
  /\ Counting.count Counting.is_destroy_volume (trace (snd x)) <= 1
  /\ (fst x = Ok tt ->
      Counting.count Counting.is_create_snapshot (trace (snd x)) = 1
      /\ Counting.count Counting.is_modify_snapshot (trace (snd x)) = 1
      /\ Counting.count Counting.is_destroy_volume (trace (snd x)) = 1).
Proof.
  intros Hv Hs Hi x.
  destruct (upload_stages fedimg policy cloud fuel s Hv Hs Hi) as (a & Hp & Hok).
  fold x in Hp, Hok.
  destruct (path_counts (region s) _ _ Hp) as (Hc & Hm & Hd & Hr).
  rewrite Hc, Hm, Hd, Hr. split; [reflexivity|].
  split; [destruct (6 <=? Calls.rank a)%nat; lia|].
  split; [destruct (7 <=? Calls.rank a)%nat; lia|].
  split; [destruct (8 <=? Calls.rank a)%nat; lia|].
  intros E. destruct (Hok E) as [Ha _]. rewrite Ha. repeat split.
Qed.

Lemma upload_calls_at_most_once_witness :
  Counting.count Counting.is_removal
                 (trace (snd (run_upload Demo.cfg spec_policy Demo.calm 3 Demo.job))) = 0.
Proof.
  exact (proj1 (upload_calls_at_most_once Demo.cfg spec_policy Demo.calm 3 Demo.job
                                          eq_refl eq_refl eq_refl)).
Defined.

(** ** The cleanup after a failed run *)

Section Failed.
Import Stages.

Variable fedimg : Config.
Variable policy : RetryPolicy.
Variable cloud : Cloud.



End Failed.



(** ** More of the batch dispatcher *)

Section Batch.

Variable fedimg : Config.
Variable get_file_arch : string -> string.
Variable policy : RetryPolicy.
Variable virt_types_from_url : string -> list string.
Variable tmpdir : string.

(** X19.  The dispatcher downloads every URL once, in order, and runs the
    orchestrator twice for every virtualization type of every URL: an empty
    batch, or URLs without a virtualization type, give downloads and no
    run. *)
Theorem batch_sizes (clouds : nat -> Cloud) (fuel : nat) (urls : list string) :
  let b := uploader_upload fedimg get_file_arch policy virt_types_from_url tmpdir
                           clouds fuel urls in
  List.length (downloads b) = List.length urls
  /\ List.length (runs b)
     = 2 * list_sum (map (fun u => List.length (virt_types_from_url u)) urls).
Proof.
  cbn [downloads runs uploader_upload]. split.
  - apply length_map.
  - now rewrite pool_map_length, services_length.
Qed.

(** X20.  Every object that the dispatcher builds is fresh: it holds no
    volume, snapshot or image and has no driver yet; its working directory is
    the temporary directory of the batch, and its region is the first of the
    configured list. *)
Theorem batch_objects_are_fresh (urls : list string) :
  Forall (fun s => volume s = None /\ snapshot s = None /\ image s = None
                   /\ driver s = None /\ cwd s = tmpdir
                   /\ region s = hd EmptyString (PyStr.split "|" (AWS_REGIONS fedimg))
                   /\ In (raw_url s) urls)
         (services fedimg get_file_arch virt_types_from_url tmpdir urls).
Proof.
  unfold services. apply Forall_forall. intros s Hs.
  apply in_flat_map in Hs as (u & Hu & Hs). unfold services_of_url in Hs.
  apply in_flat_map in Hs as (vt & _ & [<-|[<-|[]]]); cbn; repeat split; exact Hu.
Qed.

End Batch.
